(** * Matching pipeline of VAYO: a shallow embedding of [src/celery_tasks.py]
    and the records of [src/models.py].

    Scores are the Python floats produced by the vector search; they are
    modelled as rationals ([Q]).  The thresholds [0.87] and [0.55] are the
    exact decimals: since no double lies strictly between a decimal and its
    nearest double, comparing a double score with the literal gives the same
    answer as comparing it with the exact decimal. *)

From Stdlib Require Import QArith List String Ascii Bool Arith Lia ZArith.
From Stdlib Require Import Permutation.
Import ListNotations.

Open Scope Q_scope.

(** ** Python values *)

(** Outcome of a Python computation that may raise: the exception is kept
    as its message [str(e)]. *)
Inductive res (A : Type) : Type :=
| Ok (a : A)
| Raise (msg : string).
Arguments Ok {A} a.
Arguments Raise {A} msg.

Definition res_bind {A B} (m : res A) (k : A -> res B) : res B :=
  match m with
  | Ok a => k a
  | Raise e => Raise e
  end.

Notation "'let!' x ':=' m 'in' k" := (res_bind m (fun x => k))
  (at level 200, x name, m at level 100, k at level 200).

(** A list comprehension whose element computation may raise: the first
    exception escapes. *)
Fixpoint res_map {A B} (f : A -> res B) (l : list A) : res (list B) :=
  match l with
  | [] => Ok []
  | x :: xs => let! y := f x in let! ys := res_map f xs in Ok (y :: ys)
  end.

(** Boolean float comparisons. *)
Definition Qltb (x y : Q) : bool := negb (Qle_bool y x).
Definition Qleb (x y : Q) : bool := Qle_bool x y.

(** ** models.py *)

Inductive MatchTier := SOULMATE | EXPLORER | FALLBACK.

Definition MatchTier_eqb (a b : MatchTier) : bool :=
  match a, b with
  | SOULMATE, SOULMATE | EXPLORER, EXPLORER | FALLBACK, FALLBACK => true
  | _, _ => false
  end.

(** [CommunityMatch]; [created_at] and the example config are left out. *)
Record CommunityMatch := mkCommunityMatch {
  cm_community_id : string;
  cm_community_name : string;
  cm_category : string;
  cm_match_score : Q;
  cm_member_count : Z;
  cm_recent_activity : Z
}.

(** Pydantic's [Field(..., ge=0.0, le=1.0)] on [match_score]: construction
    raises a [ValidationError] outside [0, 1]. *)
Definition CommunityMatch_new (cid name cat : string) (score : Q)
    (members activity : Z) : res CommunityMatch :=
  if Qleb 0 score && Qleb score 1
  then Ok (mkCommunityMatch cid name cat score members activity)
  else Raise "1 validation error for CommunityMatch match_score".

Record MatchResult := mkMatchResult {
  task_id : string;
  user_id : string;
  tier : MatchTier;
  matches : list CommunityMatch;
  auto_joined_community : option string;
  ai_intro_generated : bool;
  requires_profile_update : bool;
  processing_time_ms : Z
}.

(** [result.processing_time_ms = processing_time] *)
Definition set_processing_time (r : MatchResult) (t : Z) : MatchResult :=
  {| task_id := task_id r; user_id := user_id r; tier := tier r;
     matches := matches r; auto_joined_community := auto_joined_community r;
     ai_intro_generated := ai_intro_generated r;
     requires_profile_update := requires_profile_update r;
     processing_time_ms := t |}.

(** ** The dicts passed between the phases

    A community dict as read by the code.  The keys [community_id],
    [community_name], [category] and [member_count] are indexed with [[]];
    [match_score] is absent from the store's own records and is read with
    [["match_score"]] by the decision engine and with [.get] by
    [_to_community_match]; [recent_activity] is read with [.get] too. *)
Record Community := mkCommunity {
  community_id : string;
  community_name : string;
  category : string;
  member_count : Z;
  match_score : option Q;
  recent_activity : option Z
}.

(** [_to_community_match(community, score=None)] *)
Definition to_community_match (c : Community) (score : option Q)
    : res CommunityMatch :=
  let s := match score with
           | Some s => s
           | None => match match_score c with Some s => s | None => 0 end
           end in
  CommunityMatch_new (community_id c) (community_name c) (category c) s
    (member_count c)
    (match recent_activity c with Some a => a | None => 0%Z end).

(** [top_match["match_score"]]: a [KeyError] when the key is absent. *)
Definition get_match_score (c : Community) : res Q :=
  match match_score c with
  | Some s => Ok s
  | None => Raise "'match_score'"
  end.

(** ** Collaborators

    Modelled from the spec: [db_manager] ([filter_communities_by_location],
    [vector_search], [get_popular_communities]), [ai_service] and
    [cache_manager] are imported by [celery_tasks.py] but are not part of
    [src/].  Following the spec's section 6, each remote call either returns
    or raises; the location store returns at most [limit] records matching
    the city and timezone, the vector search the top [top_k] pairs restricted
    to the given ids, and the popular query the first [limit] communities in
    the store's own popularity order.  The records of the store carry no
    [match_score] (a CommunityRecord of the spec's data model has none).
    One [Env] describes how the collaborators answer during one run of the
    task. *)
Record Env := mkEnv {
  sanitize_call : res (string * list string * bool);
  embed_call : res (list Q);
  location_store : res (list Community);
  vector_index : res (list (string * Q));
  popular_store : res (list Community);
  elapsed_ms : Z
}.

Definition filter_communities_by_location (env : Env) (limit : nat)
    : res (list Community) :=
  let! cs := location_store env in Ok (firstn limit cs).

Definition vector_search (env : Env) (community_ids : list string)
    (top_k : nat) : res (list (string * Q)) :=
  let! vs := vector_index env in
  Ok (firstn top_k
        (filter (fun v => existsb (String.eqb (fst v)) community_ids) vs)).

Definition get_popular_communities (env : Env) (limit : nat)
    : res (list Community) :=
  let! cs := popular_store env in Ok (firstn limit cs).

(** ** _apply_diversity_filter *)

(** [matches.pop(i)], for an index in range. *)
Fixpoint list_pop {A} (i : nat) (l : list A) : option (A * list A) :=
  match i, l with
  | _, [] => None
  | O, x :: l' => Some (x, l')
  | S i', x :: l' =>
      match list_pop i' l' with
      | Some (y, r) => Some (y, x :: r)
      | None => None
      end
  end.

(** [matches.insert(i, x)]: past the end, Python appends. *)
Fixpoint list_insert {A} (i : nat) (x : A) (l : list A) : list A :=
  match i, l with
  | O, _ => x :: l
  | S _, [] => [x]
  | S i', y :: l' => y :: list_insert i' x l'
  end.

(** [for i in range(start, len(matches)): if matches[i]["category"] !=
    dominant_category: ...], run over [rest = matches[start:]]. *)
Fixpoint first_diff_from (dominant : string) (i : nat) (rest : list Community)
    : option nat :=
  match rest with
  | [] => None
  | m :: rest' =>
      if negb (String.eqb (category m) dominant) then Some i
      else first_diff_from dominant (S i) rest'
  end.

Definition apply_diversity_filter (ms : list Community) : list Community :=
  if (List.length ms <? 4)%nat then ms
  else
    let top_3_categories := map category (firstn 3 ms) in
    if (List.length (nodup string_dec top_3_categories) =? 1)%nat then
      match top_3_categories with
      | dominant_category :: _ =>
          match first_diff_from dominant_category 3 (skipn 3 ms) with
          | Some i =>
              match list_pop i ms with
              | Some (diverse_match, ms') => list_insert 2 diverse_match ms'
              | None => ms
              end
          | None => ms
          end
      | [] => ms
      end
    else ms.

(** ** _hybrid_matching_algorithm *)

(** [community_map = {c["community_id"]: c for c in filtered}]: on a
    repeated id the last record wins. *)
Definition community_map_lookup (filtered : list Community) (cid : string)
    : option Community :=
  find (fun c => String.eqb (community_id c) cid) (rev filtered).

(** The join loop building [enriched_matches]; [community["recent_activity"]]
    is indexed with [[]]. *)
Fixpoint enrich (filtered : list Community) (vms : list (string * Q))
    : res (list Community) :=
  match vms with
  | [] => Ok []
  | (comm_id, score) :: vms' =>
      match community_map_lookup filtered comm_id with
      | Some community =>
          match recent_activity community with
          | Some act =>
              let! rest := enrich filtered vms' in
              Ok (mkCommunity comm_id (community_name community)
                    (category community) (member_count community)
                    (Some score) (Some act) :: rest)
          | None => Raise "'recent_activity'"
          end
      | None => enrich filtered vms'
      end
  end.

Definition hybrid_matching_algorithm (env : Env) : res (list Community) :=
  let! filtered_communities := filter_communities_by_location env 1000 in
  match filtered_communities with
  | [] => get_popular_communities env 5
  | _ :: _ =>
      let community_ids := map community_id filtered_communities in
      let! vector_matches := vector_search env community_ids 20 in
      let! enriched_matches := enrich filtered_communities vector_matches in
      Ok (apply_diversity_filter enriched_matches)
  end.

(** ** _apply_decision_engine *)

(** [[_to_community_match(c, 0.0) for c in popular]] *)
Definition zero_scored (popular : list Community) : res (list CommunityMatch) :=
  res_map (fun c => to_community_match c (Some 0)) popular.

Definition apply_decision_engine (env : Env) (tid uid : string)
    (ms : list Community) : res MatchResult :=
  match ms with
  | [] =>
      let! popular := get_popular_communities env 5 in
      let! cms := zero_scored popular in
      Ok (mkMatchResult tid uid FALLBACK cms None false true 0)
  | top_match :: _ =>
      let! top_score := get_match_score top_match in
      if Qltb (87 # 100) top_score then
        let! cm := to_community_match top_match None in
        Ok (mkMatchResult tid uid SOULMATE [cm]
              (Some (community_id top_match)) false false 0)
      else if Qleb (55 # 100) top_score then
        let! cms := res_map (fun m => to_community_match m None) (firstn 5 ms) in
        Ok (mkMatchResult tid uid EXPLORER cms None false false 0)
      else
        let! popular := get_popular_communities env 5 in
        let! cms := zero_scored popular in
        Ok (mkMatchResult tid uid FALLBACK cms None false true 0)
  end.

(** ** process_match_task *)

(** The module globals [success_counter], [failure_counter] and
    [fallback_counter] of one worker process. *)
Record Counters := mkCounters {
  success_counter : nat;
  failure_counter : nat;
  fallback_counter : nat
}.

(** The ["step"] reported through [self.update_state]. *)
Inductive Phase := Sanitization | Vectorization | HybridMatching | DecisionEngine.

(** What the task changes outside itself: the counters, the progress reports
    (each tagged with [self.request.retries]) and the results handed to
    [cache_manager.publish_match_result]. *)
Record World := mkWorld {
  counters : Counters;
  progress : list (nat * Phase);
  published : list (string * MatchResult)
}.

(** State and exceptions threaded through the body of the task. *)
Definition M (A : Type) : Type := World -> res A * World.

Definition ret {A} (a : A) : M A := fun w => (Ok a, w).

Definition bind {A B} (m : M A) (k : A -> M B) : M B :=
  fun w => match m w with
           | (Ok a, w') => k a w'
           | (Raise e, w') => (Raise e, w')
           end.

Definition lift {A} (r : res A) : M A := fun w => (r, w).

Notation "x <- m ;; k" := (bind m (fun x => k))
  (at level 61, m at next level, right associativity).

Definition update_state (retries : nat) (step : Phase) : M unit :=
  fun w => (Ok tt, mkWorld (counters w) (progress w ++ [(retries, step)])
                      (published w)).

Definition publish_match_result (uid : string) (r : MatchResult) : M unit :=
  fun w => (Ok tt, mkWorld (counters w) (progress w)
                      (published w ++ [(uid, r)])).

Definition incr_success : M unit :=
  fun w => let c := counters w in
    (Ok tt, mkWorld (mkCounters (S (success_counter c)) (failure_counter c)
                       (fallback_counter c)) (progress w) (published w)).

Definition incr_failure : M unit :=
  fun w => let c := counters w in
    (Ok tt, mkWorld (mkCounters (success_counter c) (S (failure_counter c))
                       (fallback_counter c)) (progress w) (published w)).

(** The [try] block.  The four phases run in order; the sanitized profile,
    the embedding payload and the vector cache write feed the collaborators
    of [env] and raise nothing of their own here. *)
Definition guarded (env : Env) (tid uid : string) (retries : nat)
    : M MatchResult :=
  _ <- update_state retries Sanitization ;;
  sanitized <- lift (sanitize_call env) ;;
  _ <- update_state retries Vectorization ;;
  user_vector <- lift (embed_call env) ;;
  _ <- update_state retries HybridMatching ;;
  ms <- lift (hybrid_matching_algorithm env) ;;
  _ <- update_state retries DecisionEngine ;;
  result <- lift (apply_decision_engine env tid uid ms) ;;
  let result := set_processing_time result (elapsed_ms env) in
  _ <- publish_match_result uid result ;;
  _ <- incr_success ;;
  ret result.

Definition transient_errors : list string :=
  ["429"%string; "timeout"%string; "ConnectionError"%string;
   "ServiceUnavailable"%string; "Temporary"%string].

(** Python's [err in error_message]. *)
Definition contains (err error_message : string) : bool :=
  match String.index 0 err error_message with
  | Some _ => true
  | None => false
  end.

Definition is_transient (error_message : string) : bool :=
  existsb (fun err => contains err error_message) transient_errors.

(** [max_retries=3] of the task decorator. *)
Definition max_retries : nat := 3.

(** How one execution of the task ends: it returns a result, raises
    Celery's [Retry] (re-scheduling the task after [countdown] seconds), or
    lets an exception escape. *)
Inductive Outcome :=
| TaskReturn (r : MatchResult)
| TaskRetry (countdown : nat) (exc : string)
| TaskCrash (msg : string).

(** The [except Exception as e] block. *)
Definition handler (env : Env) (tid uid : string) (retries : nat)
    (error_message : string) : M Outcome :=
  _ <- incr_failure ;;
  if is_transient error_message && (retries <? max_retries)%nat then
    ret (TaskRetry (2 ^ retries) error_message)
  else
    popular <- lift (get_popular_communities env 5) ;;
    cms <- lift (zero_scored popular) ;;
    ret (TaskReturn (mkMatchResult tid uid FALLBACK cms None false true
                       (elapsed_ms env))).

(** One execution of [process_match_task] with [self.request.retries =
    retries]. *)
Definition process_match_task (env : Env) (tid uid : string) (retries : nat)
    (w : World) : Outcome * World :=
  match guarded env tid uid retries w with
  | (Ok r, w1) => (TaskReturn r, w1)
  | (Raise e, w1) =>
      match handler env tid uid retries e w1 with
      | (Ok o, w2) => (o, w2)
      | (Raise e', w2) => (TaskCrash e', w2)
      end
  end.

(** Celery re-delivering the task after each [self.retry]: the next
    execution runs the whole task again with [retries + 1]; [envs n] is how
    the collaborators answer during execution [n].  Returns the countdowns,
    the final outcome and the world.  All executions are assumed to run in
    one worker process, so they share its counters. *)
Fixpoint run_task (fuel : nat) (envs : nat -> Env) (tid uid : string)
    (retries : nat) (w : World) : list nat * option Outcome * World :=
  match fuel with
  | O => ([], None, w)
  | S fuel' =>
      let (o, w1) := process_match_task (envs retries) tid uid retries w in
      match o with
      | TaskRetry countdown _ =>
          let '(ds, fin, w2) := run_task fuel' envs tid uid (S retries) w1 in
          (countdown :: ds, fin, w2)
      | _ => ([], Some o, w1)
      end
  end.

(** A task delivered fresh ([retries = 0]); [max_retries + 1] executions
    are always enough. *)
Definition celery_run (envs : nat -> Env) (tid uid : string) (w : World)
    : list nat * option Outcome * World :=
  run_task (S max_retries) envs tid uid 0 w.

(** ** models.py: the validators of UserProfileInput and AIIntroduction *)

(** A Python [str] whose code points lie below 256 is the Rocq string of
    those code points.  On these characters [str.isspace] holds exactly for
    9-13, 28-32, 133 and 160, and [str.lower] maps 65-90, 192-214 and 216-222
    to the code point 32 above and leaves the others unchanged (CPython's
    Unicode tables restricted to U+0000-U+00FF). *)
Definition py_isspace (c : ascii) : bool :=
  let n := nat_of_ascii c in
  (((9 <=? n) && (n <=? 13)) || ((28 <=? n) && (n <=? 32)) ||
   (n =? 133) || (n =? 160))%nat.

Definition py_lower_char (c : ascii) : ascii :=
  let n := nat_of_ascii c in
  if (((65 <=? n) && (n <=? 90)) || ((192 <=? n) && (n <=? 214)) ||
      ((216 <=? n) && (n <=? 222)))%nat
  then ascii_of_nat (n + 32)%nat
  else c.

Fixpoint lstrip_chars (l : list ascii) : list ascii :=
  match l with
  | [] => []
  | c :: l' => if py_isspace c then lstrip_chars l' else l
  end.

Definition strip_chars (l : list ascii) : list ascii :=
  rev (lstrip_chars (rev (lstrip_chars l))).

(** [s.strip()] *)
Definition py_strip (s : string) : string :=
  string_of_list_ascii (strip_chars (list_ascii_of_string s)).

(** [s.lower()] *)
Definition py_lower (s : string) : string :=
  string_of_list_ascii (map py_lower_char (list_ascii_of_string s)).

(** Truth value of a [str]: false for the empty string only. *)
Definition py_str_truthy (s : string) : bool :=
  match s with
  | EmptyString => false
  | String _ _ => true
  end.

(** [UserProfileInput.validate_bio] *)
Definition validate_bio (v : string) : res string :=
  if (String.length (py_strip v) <? 10)%nat
  then Raise "Bio must be at least 10 characters"
  else Ok (py_strip v).

(** The [bio] field: pydantic checks [min_length=10] and [max_length=500] on
    the raw string, then runs the [validate_bio] validator on it. *)
Definition bio_field (v : string) : res string :=
  if ((10 <=? String.length v) && (String.length v <=? 500))%nat
  then validate_bio v
  else Raise "1 validation error for UserProfileInput bio".

(** [UserProfileInput.validate_tags]:
    [list(set([tag.strip().lower() for tag in v if tag.strip()]))].  CPython
    iterates the set in an order that depends on the strings' hashes; the
    model keeps first occurrences in input order, and the properties proved
    about it (membership, absence of duplicates, count) do not depend on that
    order. *)
Definition validate_tags (v : list string) : list string :=
  nodup string_dec
    (map (fun tag => py_lower (py_strip tag))
       (filter (fun tag => py_str_truthy (py_strip tag)) v)).

(** The [interest_tags] field: [min_items=1] and [max_items=20] are checked
    on the raw list, then [validate_tags] runs. *)
Definition interest_tags_field (v : list string) : res (list string) :=
  if ((1 <=? List.length v) && (List.length v <=? 20))%nat
  then Ok (validate_tags v)
  else Raise "1 validation error for UserProfileInput interest_tags".

Record AIIntroduction := mkAIIntroduction {
  intro_community_id : string;
  intro_text : string;
  mentioned_member : option string;
  toxicity_score : Q;
  approved : bool
}.

(** [AIIntroduction.check_toxicity(cls, v, values)]: [values] holds
    [toxicity_score] only when that field passed its own validation. *)
Definition check_toxicity (v : bool) (toxicity : option Q) : bool :=
  match toxicity with
  | Some t => if Qltb (75 # 100) t then false else true
  | None => true
  end.

(** Construction of an [AIIntroduction]: the fields are validated in their
    declaration order ([intro_text] with [max_length=300], [toxicity_score]
    with [ge=0.0, le=1.0], then [approved] through [check_toxicity]); the
    errors are collected and raised together. *)
Definition AIIntroduction_new (cid text : string) (member : option string)
    (toxicity : Q) (approved_in : bool) : res AIIntroduction :=
  let text_ok := (String.length text <=? 300)%nat in
  let toxicity_ok := Qleb 0 toxicity && Qleb toxicity 1 in
  let approved_v :=
    check_toxicity approved_in (if toxicity_ok then Some toxicity else None) in
  if text_ok && toxicity_ok
  then Ok (mkAIIntroduction cid text member toxicity approved_v)
  else Raise "validation error for AIIntroduction".

(** ** Concrete inputs *)

(** A record as the location store or the popular query returns it. *)
Definition store_record (cid cat : string) : Community :=
  mkCommunity cid cid cat 100 None (Some 7%Z).

(** A scored match dict as built by the join of [_hybrid_matching_algorithm]. *)
Definition scored_match (cid cat : string) (s : Q) : Community :=
  mkCommunity cid cid cat 100 (Some s) (Some 7%Z).

Definition popular_records : list Community :=
  [store_record "pop1" "Music"; store_record "pop2" "Sports";
   store_record "pop3" "Books"; store_record "pop4" "Gaming";
   store_record "pop5" "Cooking"; store_record "pop6" "Travel"].

Definition local_records : list Community :=
  [store_record "c1" "Programming"; store_record "c2" "Programming";
   store_record "c3" "Programming"; store_record "c4" "Hiking";
   store_record "c5" "Programming"].

(** The vector search ranking [c1] first with score [top]. *)
Definition ranked (top : Q) : list (string * Q) :=
  [("c1", top); ("c2", 1 # 2); ("c3", 2 # 5); ("c4", 1 # 3);
   ("c5", 1 # 4)]%string.

Definition env_with (embed : res (list Q)) (locs : list Community)
    (vecs : list (string * Q)) : Env :=
  mkEnv (Ok ("Backend developer who likes hiking", ["python"; "hiking"],
             false)%string)
        embed (Ok locs) (Ok vecs) (Ok popular_records) 120.

Definition some_vector : res (list Q) := Ok [1 # 2; 1 # 3; 1 # 5].

(** Collaborators answering normally, the top score being [top]. *)
Definition env_scored (top : Q) : Env :=
  env_with some_vector local_records (ranked top).

(** No community in the user's city and timezone. *)
Definition env_no_candidates : Env := env_with some_vector [] [].

(** The embedding call raising [msg]. *)
Definition env_embed_fails (msg : string) : Env :=
  env_with (Raise msg) local_records (ranked (70 # 100)).

(** The embedding call raising a connection error on the first execution
    only. *)
Definition envs_embed_flaky (n : nat) : Env :=
  match n with
  | O => env_embed_fails "ConnectionError: connection reset by peer"
  | S _ => env_scored (70 # 100)
  end.

Definition w_init : World := mkWorld (mkCounters 0 0 0) [] [].

(** The sanitization call running past its 5 seconds: [asyncio.wait_for]
    raises [TimeoutError()], whose [str] is empty. *)
Definition env_sanitize_times_out : Env :=
  mkEnv (Raise EmptyString) some_vector (Ok local_records)
        (Ok (ranked (70 # 100))) (Ok popular_records) 120.

(** ** Helper definitions for stating the properties *)

(** [community.get("match_score", 0.0)] *)
Definition score_of (c : Community) : Q :=
  match match_score c with Some s => s | None => 0 end.

(** The CommunityMatch with the same fields as a match dict. *)
Definition community_match_fields (c : Community) : CommunityMatch :=
  mkCommunityMatch (community_id c) (community_name c) (category c)
    (score_of c) (member_count c)
    (match recent_activity c with Some a => a | None => 0%Z end).

Definition score_in_unit (c : Community) : Prop := 0 <= score_of c <= 1.

Definition sc (w : World) : nat := success_counter (counters w).
Definition fc (w : World) : nat := failure_counter (counters w).
Definition fbc (w : World) : nat := fallback_counter (counters w).

(** The properties of a returned MatchResult asked for by the spec's
    section 8. *)
Definition flag_iff_fallback (r : MatchResult) : Prop :=
  requires_profile_update r = true <-> tier r = FALLBACK.

Definition fallback_shape (r : MatchResult) : Prop :=
  tier r = FALLBACK ->
  (List.length (matches r) <= 5)%nat /\
  Forall (fun cm => cm_match_score cm = 0) (matches r).

Definition scores_in_unit (r : MatchResult) : Prop :=
  Forall (fun cm => 0 <= cm_match_score cm <= 1) (matches r).

(** The steps reported through [update_state], in the order of the code. *)
Definition task_phases : list Phase :=
  [Sanitization; Vectorization; HybridMatching; DecisionEngine].

(** ** Basic lemmas *)

Lemma Qltb_iff (x y : Q) : Qltb x y = true <-> x < y.
Proof.
  unfold Qltb. rewrite negb_true_iff. split; intro H.
  - apply Qnot_le_lt. intro H'. apply Qle_bool_iff in H'. congruence.
  - destruct (Qle_bool y x) eqn:E; [|reflexivity].
    apply Qle_bool_iff in E. exfalso. apply (Qlt_not_le x y); assumption.
Qed.

Lemma Qltb_false (x y : Q) : Qltb x y = false <-> y <= x.
Proof.
  unfold Qltb. rewrite negb_false_iff. apply Qle_bool_iff.
Qed.

Lemma Qleb_iff (x y : Q) : Qleb x y = true <-> x <= y.
Proof. apply Qle_bool_iff. Qed.

Lemma Qleb_false (x y : Q) : Qleb x y = false <-> y < x.
Proof.
  split; intro H.
  - apply Qnot_le_lt. intro H'. apply Qle_bool_iff in H'.
    unfold Qleb in H. congruence.
  - destruct (Qleb x y) eqn:E; [|reflexivity].
    apply Qleb_iff in E. exfalso. apply (Qlt_not_le y x); assumption.
Qed.

Lemma CommunityMatch_new_ok cid name cat s m a cm :
  CommunityMatch_new cid name cat s m a = Ok cm ->
  cm = mkCommunityMatch cid name cat s m a /\ 0 <= s <= 1.
Proof.
  unfold CommunityMatch_new.
  destruct (Qleb 0 s) eqn:E1, (Qleb s 1) eqn:E2; simpl; intro H;
    try discriminate.
  inversion H. apply Qleb_iff in E1. apply Qleb_iff in E2. auto.
Qed.

Lemma CommunityMatch_new_in_unit cid name cat s m a :
  0 <= s <= 1 ->
  CommunityMatch_new cid name cat s m a = Ok (mkCommunityMatch cid name cat s m a).
Proof.
  intros [H1 H2]. unfold CommunityMatch_new.
  apply Qleb_iff in H1. apply Qleb_iff in H2. rewrite H1, H2. reflexivity.
Qed.

Lemma to_community_match_unit c sc0 cm :
  to_community_match c sc0 = Ok cm -> 0 <= cm_match_score cm <= 1.
Proof.
  unfold to_community_match. intro H.
  apply CommunityMatch_new_ok in H as [-> H]. exact H.
Qed.

Lemma to_community_match_fields c :
  score_in_unit c -> to_community_match c None = Ok (community_match_fields c).
Proof.
  intro H. unfold to_community_match, community_match_fields.
  apply CommunityMatch_new_in_unit. exact H.
Qed.

Lemma res_map_forall {A B} (f : A -> res B) (P : B -> Prop) l l' :
  (forall x y, f x = Ok y -> P y) -> res_map f l = Ok l' -> Forall P l'.
Proof.
  intros Hf. revert l'. induction l as [|x xs IH]; simpl; intros l' H.
  - inversion H. constructor.
  - destruct (f x) eqn:E; simpl in H; [|discriminate].
    destruct (res_map f xs) eqn:E'; simpl in H; [|discriminate].
    inversion H; subst. constructor; eauto.
Qed.

Lemma res_map_length {A B} (f : A -> res B) l l' :
  res_map f l = Ok l' -> List.length l' = List.length l.
Proof.
  revert l'. induction l as [|x xs IH]; simpl; intros l' H.
  - inversion H. reflexivity.
  - destruct (f x); simpl in H; [|discriminate].
    destruct (res_map f xs) eqn:E'; simpl in H; [|discriminate].
    inversion H; subst. simpl. f_equal. auto.
Qed.

Lemma res_map_ok_all {A B} (f : A -> res B) (g : A -> B) l :
  (forall x, In x l -> f x = Ok (g x)) -> res_map f l = Ok (map g l).
Proof.
  induction l as [|x xs IH]; simpl; intro H; [reflexivity|].
  rewrite (H x (or_introl eq_refl)). simpl.
  rewrite IH; [reflexivity|]. intros y Hy. apply H. right. exact Hy.
Qed.

Lemma zero_scored_shape popular cms :
  zero_scored popular = Ok cms ->
  List.length cms = List.length popular /\
  Forall (fun cm => cm_match_score cm = 0) cms.
Proof.
  unfold zero_scored. intro H. split.
  - eapply res_map_length. exact H.
  - eapply res_map_forall; [|exact H].
    intros c cm Hc. unfold to_community_match in Hc.
    apply CommunityMatch_new_ok in Hc as [-> _]. reflexivity.
Qed.

Lemma zero_scored_unit popular cms :
  zero_scored popular = Ok cms ->
  Forall (fun cm => 0 <= cm_match_score cm <= 1) cms.
Proof.
  unfold zero_scored. apply res_map_forall.
  intros c cm Hc. eapply to_community_match_unit. exact Hc.
Qed.

Lemma get_popular_length env n ps :
  get_popular_communities env n = Ok ps -> (List.length ps <= n)%nat.
Proof.
  unfold get_popular_communities. destruct (popular_store env); simpl;
    intro H; [|discriminate].
  inversion H. apply firstn_le_length.
Qed.

(** Case analysis on the steps of a computation known to return. *)
Ltac ok_cases H :=
  repeat match type of H with
  | context [res_bind ?m _] =>
      let E := fresh "E" in
      destruct m eqn:E; cbn [res_bind] in H; [|discriminate H]
  | context [if ?b then _ else _] =>
      let E := fresh "E" in destruct b eqn:E
  end.

Lemma decision_engine_inv env tid uid ms r :
  apply_decision_engine env tid uid ms = Ok r ->
  flag_iff_fallback r /\ fallback_shape r /\ scores_in_unit r.
Proof.
  unfold flag_iff_fallback, fallback_shape, scores_in_unit.
  destruct ms as [|top rest]; cbn [apply_decision_engine]; intro H;
    ok_cases H; inversion H; subst; simpl;
    try match goal with
    | Hp : get_popular_communities _ _ = Ok _,
      Hz : zero_scored _ = Ok _ |- _ =>
        apply get_popular_length in Hp;
        pose proof (zero_scored_shape _ _ Hz) as [HZl HZf];
        apply zero_scored_unit in Hz;
        split; [tauto|]; split; [|exact Hz]; intros _; split; [lia|exact HZf]
    end;
    (split; [split; intro HH; discriminate|]; split; [intro HH; discriminate|]).
  - constructor; [|constructor]. eapply to_community_match_unit; eauto.
  - eapply res_map_forall; [|eassumption].
    intros c cm Hc. exact (to_community_match_unit _ _ _ Hc).
Qed.

(** ** C1: the tier is decided by the score of the first entry *)

(** Claim C1: for a non-empty match sequence whose first entry carries the
    score [s], the MatchResult produced by the decision engine is SOULMATE
    exactly when [s > 0.87], EXPLORER exactly when [0.55 <= s <= 0.87] and
    FALLBACK exactly when [s < 0.55]. *)
Theorem decision_tier_of_top_score env tid uid top rest s r :
  match_score top = Some s ->
  apply_decision_engine env tid uid (top :: rest) = Ok r ->
  (tier r = SOULMATE <-> 87 # 100 < s) /\
  (tier r = EXPLORER <-> 55 # 100 <= s /\ s <= 87 # 100) /\
  (tier r = FALLBACK <-> s < 55 # 100).
Proof.
  intros Hs H. cbn [apply_decision_engine] in H.
  unfold get_match_score in H. rewrite Hs in H. cbn [res_bind] in H.
  destruct (Qltb (87 # 100) s) eqn:E1.
  - ok_cases H. inversion H; subst; simpl. apply Qltb_iff in E1.
    split; [tauto|]. split; split; intro HH; try discriminate.
    + destruct HH as [_ HH]. exfalso. exact (Qlt_not_le _ _ E1 HH).
    + exfalso. apply (Qlt_not_le _ _ HH). apply Qlt_le_weak.
      apply Qlt_trans with (87 # 100); [reflexivity|exact E1].
  - apply Qltb_false in E1. destruct (Qleb (55 # 100) s) eqn:E2.
    + ok_cases H. inversion H; subst; simpl. apply Qleb_iff in E2.
      split; [split; intro HH; [discriminate|exfalso; exact (Qlt_not_le _ _ HH E1)]|].
      split; [tauto|]. split; intro HH; [discriminate|].
      exfalso. exact (Qlt_not_le _ _ HH E2).
    + ok_cases H. inversion H; subst; simpl. apply Qleb_false in E2.
      split; [split; intro HH; [discriminate|exfalso; exact (Qlt_not_le _ _ HH E1)]|].
      split; [split; intro HH; [discriminate|]|tauto].
      destruct HH as [HH _]. exfalso. exact (Qlt_not_le _ _ E2 HH).
Qed.

(** ** C7: SOULMATE keeps the top candidate only *)

(** Claim C7: when the first entry of a non-empty match sequence has a score
    [s > 0.87], the decision engine returns a SOULMATE result whose matches
    are exactly that top candidate (same fields, score [s]), whose
    auto-joined community is its id and with [ai_intro_generated = false].
    The score is a cosine similarity in [0, 1] (the spec's CandidateMatch);
    above 1 the pydantic check of CommunityMatch raises. *)
Theorem soulmate_single_top_match env tid uid top rest s :
  match_score top = Some s -> 87 # 100 < s -> s <= 1 ->
  apply_decision_engine env tid uid (top :: rest) =
  Ok (mkMatchResult tid uid SOULMATE
        [mkCommunityMatch (community_id top) (community_name top)
           (category top) s (member_count top)
           (match recent_activity top with Some a => a | None => 0%Z end)]
        (Some (community_id top)) false false 0).
Proof.
  intros Hs Hlo Hhi. cbn [apply_decision_engine].
  unfold get_match_score. rewrite Hs. cbn [res_bind].
  apply Qltb_iff in Hlo. rewrite Hlo.
  rewrite to_community_match_fields.
  - cbn [res_bind]. unfold community_match_fields, score_of. rewrite Hs.
    reflexivity.
  - unfold score_in_unit, score_of. rewrite Hs. split; [|exact Hhi].
    apply Qltb_iff in Hlo. apply Qlt_le_weak.
    apply Qle_lt_trans with (87 # 100); [discriminate|exact Hlo].
Qed.

(** ** C8: EXPLORER keeps the first five entries in order *)

(** Claim C8: when the first entry of a non-empty match sequence has a score
    in [0.55, 0.87], the decision engine returns an EXPLORER result whose
    matches are the first five entries of the sequence (fewer if there are
    fewer), in the given order, each carried over field by field.  The
    entries' scores are cosine similarities in [0, 1] (the spec's
    CandidateMatch). *)
Theorem explorer_first_five env tid uid top rest s :
  match_score top = Some s -> 55 # 100 <= s -> s <= 87 # 100 ->
  Forall score_in_unit (firstn 5 (top :: rest)) ->
  apply_decision_engine env tid uid (top :: rest) =
  Ok (mkMatchResult tid uid EXPLORER
        (map community_match_fields (firstn 5 (top :: rest)))
        None false false 0).
Proof.
  intros Hs Hlo Hhi Hall. cbn [apply_decision_engine].
  unfold get_match_score. rewrite Hs. cbn [res_bind].
  apply Qltb_false in Hhi. rewrite Hhi.
  apply Qleb_iff in Hlo. rewrite Hlo.
  rewrite (res_map_ok_all _ community_match_fields).
  - reflexivity.
  - intros x Hx. apply to_community_match_fields.
    rewrite Forall_forall in Hall. apply Hall. exact Hx.
Qed.

(** ** Lemmas on the diversity filter *)

Lemma nodup_three_same (x : string) : nodup string_dec [x; x; x] = [x].
Proof.
  cbn [nodup].
  destruct (in_dec string_dec x []) as [[]|_].
  destruct (in_dec string_dec x [x]) as [_|n];
    [|exfalso; apply n; left; reflexivity].
  destruct (in_dec string_dec x [x; x]) as [_|n];
    [|exfalso; apply n; left; reflexivity].
  reflexivity.
Qed.

Lemma nodup_three_one (x y z : string) :
  List.length (nodup string_dec [x; y; z]) = 1%nat -> y = x /\ z = x.
Proof.
  cbn [nodup].
  destruct (in_dec string_dec z []) as [[]|_].
  destruct (in_dec string_dec y [z]) as [Hy|Hy];
    destruct (in_dec string_dec x [y; z]) as [Hx|Hx]; simpl; intro H;
    try discriminate.
  destruct Hy as [Hy|[]]. subst z.
  destruct Hx as [Hx|[Hx|[]]]; subst; auto.
Qed.

Lemma first_diff_from_app d i pre x post :
  Forall (fun m => category m = d) pre -> category x <> d ->
  first_diff_from d i (pre ++ x :: post) = Some (i + List.length pre)%nat.
Proof.
  intros Hpre Hx. revert i. induction Hpre as [|m pre Hm Hpre IH]; intro i.
  - simpl. rewrite <- String.eqb_neq in Hx. rewrite Hx. simpl.
    f_equal. lia.
  - simpl. rewrite Hm, String.eqb_refl. simpl. rewrite IH. f_equal. lia.
Qed.

Lemma first_diff_from_none d i rest :
  Forall (fun m => category m = d) rest -> first_diff_from d i rest = None.
Proof.
  intro H. revert i. induction H as [|m rest Hm H IH]; intro i; simpl.
  - reflexivity.
  - rewrite Hm, String.eqb_refl. simpl. apply IH.
Qed.

Lemma list_pop_app {A} (l1 l2 : list A) (x : A) :
  list_pop (List.length l1) (l1 ++ x :: l2) = Some (x, l1 ++ l2).
Proof.
  induction l1 as [|y l1 IH]; simpl; [reflexivity|]. rewrite IH. reflexivity.
Qed.

(** ** C3: the diversity filter *)

(** Claim C3: with fewer than 4 entries the filter returns its input; when
    the first three entries share a category and some later entry has
    another one, the first such entry (after a run [pre] of entries of the
    shared category) is taken out and put back at index 2, every other entry
    keeping its relative order; in all other cases the input is returned
    unchanged.  On the categories [A; A; A; B; A] this gives
    [A; A; B; A; A]. *)
Theorem diversity_filter_moves_first_other_category :
  (forall ms, (List.length ms < 4)%nat -> apply_diversity_filter ms = ms) /\
  (forall a b c pre x post,
     category b = category a -> category c = category a ->
     Forall (fun m => category m = category a) pre ->
     category x <> category a ->
     apply_diversity_filter (a :: b :: c :: pre ++ x :: post) =
     a :: b :: x :: c :: pre ++ post) /\
  (forall a b c rest,
     ~ (category b = category a /\ category c = category a) \/
     Forall (fun m => category m = category a) rest ->
     apply_diversity_filter (a :: b :: c :: rest) = a :: b :: c :: rest) /\
  (forall a b c d e,
     category a = "A"%string -> category b = "A"%string ->
     category c = "A"%string -> category d = "B"%string ->
     category e = "A"%string ->
     map category (apply_diversity_filter [a; b; c; d; e]) =
     ["A"; "A"; "B"; "A"; "A"]%string).
Proof.
  assert (Hmove : forall a b c pre x post,
     category b = category a -> category c = category a ->
     Forall (fun m => category m = category a) pre ->
     category x <> category a ->
     apply_diversity_filter (a :: b :: c :: pre ++ x :: post) =
     a :: b :: x :: c :: pre ++ post).
  { intros a b c pre x post Hb Hc Hpre Hx.
    unfold apply_diversity_filter.
    replace (List.length (a :: b :: c :: pre ++ x :: post) <? 4)%nat
      with false
      by (symmetry; apply Nat.ltb_ge; simpl; rewrite length_app; simpl; lia).
    simpl firstn. simpl map. rewrite Hb, Hc, nodup_three_same. simpl.
    rewrite first_diff_from_app by assumption.
    change (a :: b :: c :: pre ++ x :: post)
      with ((a :: b :: c :: pre) ++ x :: post).
    replace (3 + List.length pre)%nat with (List.length (a :: b :: c :: pre))
      by reflexivity.
    rewrite list_pop_app. reflexivity. }
  split; [|split; [exact Hmove|split]].
  - intros ms H. unfold apply_diversity_filter.
    apply Nat.ltb_lt in H. rewrite H. reflexivity.
  - intros a b c rest H. unfold apply_diversity_filter.
    destruct (List.length (a :: b :: c :: rest) <? 4)%nat; [reflexivity|].
    simpl firstn. simpl map.
    destruct (List.length (nodup string_dec [category a; category b; category c])
                =? 1)%nat eqn:E; [|reflexivity].
    apply Nat.eqb_eq, nodup_three_one in E.
    destruct H as [H|H]; [contradiction|].
    simpl. rewrite first_diff_from_none by exact H. reflexivity.
  - intros a b c d e Ha Hb Hc Hd He.
    replace [a; b; c; d; e] with (a :: b :: c :: [] ++ d :: [e])
      by reflexivity.
    rewrite Hmove; [simpl; rewrite Ha, Hb, Hc, Hd, He; reflexivity
                   |congruence|congruence|constructor|].
    rewrite Hd, Ha. discriminate.
Qed.

(** ** Lemmas on the orchestrator *)

Lemma guarded_cases env tid uid k w x w1 :
  guarded env tid uid k w = (x, w1) ->
  (exists tr, progress w1 = progress w ++ (k, Sanitization) :: tr /\
              Forall (fun e => fst e = k) tr) /\
  fbc w1 = fbc w /\
  match x with
  | Ok r =>
      sc w1 = S (sc w) /\ fc w1 = fc w /\
      exists ms r0, hybrid_matching_algorithm env = Ok ms /\
        apply_decision_engine env tid uid ms = Ok r0 /\
        r = set_processing_time r0 (elapsed_ms env)
  | Raise _ => counters w1 = counters w /\ published w1 = published w
  end.
Proof.
  unfold guarded, bind, lift, update_state, publish_match_result,
    incr_success, ret, fbc, sc, fc.
  destruct (sanitize_call env) as [san|e]; simpl; intro H.
  2:{ inversion H; subst; simpl. split; [|auto].
      exists []. split; [reflexivity|constructor]. }
  destruct (embed_call env) as [vec|e]; simpl in H.
  2:{ inversion H; subst; simpl. split; [|auto].
      exists [(k, Vectorization)]. rewrite <- app_assoc.
      split; [reflexivity|repeat constructor]. }
  destruct (hybrid_matching_algorithm env) as [ms|e] eqn:Ehy; simpl in H.
  2:{ inversion H; subst; simpl. split; [|auto].
      exists [(k, Vectorization); (k, HybridMatching)].
      rewrite <- !app_assoc. split; [reflexivity|repeat constructor]. }
  destruct (apply_decision_engine env tid uid ms) as [r0|e] eqn:Ede;
    simpl in H.
  2:{ inversion H; subst; simpl. split; [|auto].
      exists [(k, Vectorization); (k, HybridMatching); (k, DecisionEngine)].
      rewrite <- !app_assoc. split; [reflexivity|repeat constructor]. }
  inversion H; subst; simpl. split.
  - exists [(k, Vectorization); (k, HybridMatching); (k, DecisionEngine)].
    rewrite <- !app_assoc. split; [reflexivity|repeat constructor].
  - split; [reflexivity|]. split; [reflexivity|]. split; [reflexivity|].
    exists ms, r0. auto.
Qed.

Lemma handler_cases env tid uid k m w x w2 :
  handler env tid uid k m w = (x, w2) ->
  progress w2 = progress w /\ published w2 = published w /\
  sc w2 = sc w /\ fc w2 = S (fc w) /\ fbc w2 = fbc w /\
  match x with
  | Ok (TaskRetry d m') =>
      d = (2 ^ k)%nat /\ m' = m /\ is_transient m = true /\ (k < max_retries)%nat
  | Ok (TaskReturn r) =>
      (is_transient m = false \/ (max_retries <= k)%nat) /\
      exists ps cms, get_popular_communities env 5 = Ok ps /\
        zero_scored ps = Ok cms /\
        r = mkMatchResult tid uid FALLBACK cms None false true (elapsed_ms env)
  | Ok (TaskCrash _) => False
  | Raise _ => is_transient m = false \/ (max_retries <= k)%nat
  end.
Proof.
  unfold handler, bind, lift, incr_failure, ret, sc, fc, fbc. simpl.
  destruct (is_transient m && (k <? max_retries)%nat) eqn:Et.
  - apply andb_true_iff in Et as [Et Hk]. apply Nat.ltb_lt in Hk.
    intro H. inversion H; subst. simpl. repeat split; auto.
  - assert (Hn : is_transient m = false \/ (max_retries <= k)%nat).
    { apply andb_false_iff in Et as [Et|Et]; [left; exact Et|right].
      apply Nat.ltb_ge. exact Et. }
    destruct (get_popular_communities env 5) as [ps|e] eqn:Ep; simpl.
    2:{ intro H. inversion H; subst. simpl. repeat split; auto. }
    destruct (zero_scored ps) as [cms|e] eqn:Ez; simpl.
    2:{ intro H. inversion H; subst. simpl. repeat split; auto. }
    intro H. inversion H; subst. simpl. repeat split; auto.
    exists ps, cms. auto.
Qed.

Lemma process_cases env tid uid k w o w2 :
  process_match_task env tid uid k w = (o, w2) ->
  (exists tr, progress w2 = progress w ++ (k, Sanitization) :: tr /\
              Forall (fun e => fst e = k) tr) /\
  fbc w2 = fbc w /\
  ((sc w2 = S (sc w) /\ fc w2 = fc w /\
    exists ms r0, hybrid_matching_algorithm env = Ok ms /\
      apply_decision_engine env tid uid ms = Ok r0 /\
      o = TaskReturn (set_processing_time r0 (elapsed_ms env))) \/
   (sc w2 = sc w /\ fc w2 = S (fc w) /\
    exists m, fst (guarded env tid uid k w) = Raise m /\
    match o with
    | TaskRetry d m' =>
        d = (2 ^ k)%nat /\ m' = m /\ is_transient m = true /\
        (k < max_retries)%nat
    | TaskReturn r =>
        (is_transient m = false \/ (max_retries <= k)%nat) /\
        exists ps cms, get_popular_communities env 5 = Ok ps /\
          zero_scored ps = Ok cms /\
          r = mkMatchResult tid uid FALLBACK cms None false true
                (elapsed_ms env)
    | TaskCrash _ => is_transient m = false \/ (max_retries <= k)%nat
    end)).
Proof.
  unfold process_match_task.
  destruct (guarded env tid uid k w) as [x w1] eqn:Eg.
  apply guarded_cases in Eg as Hg. destruct Hg as [[tr [Htr Hf]] [Hfb Hx]].
  destruct x as [r|m].
  - intro H. inversion H; subst. split; [exists tr; auto|].
    split; [exact Hfb|]. left.
    destruct Hx as [Hs [Hfc [ms [r0 [Hh [He Hr]]]]]]. subst r.
    split; [exact Hs|]. split; [exact Hfc|]. exists ms, r0. auto.
  - destruct Hx as [Hc Hp].
    destruct (handler env tid uid k m w1) as [y w3] eqn:Eh.
    apply handler_cases in Eh as
      [Hpr [Hpu [Hs [Hfc [Hfb' Hy]]]]].
    assert (Hsc : sc w1 = sc w) by (unfold sc; rewrite Hc; reflexivity).
    assert (Hfc1 : fc w1 = fc w) by (unfold fc; rewrite Hc; reflexivity).
    assert (Hfb1 : fbc w1 = fbc w) by (unfold fbc; rewrite Hc; reflexivity).
    destruct y as [o'|e]; intro H; inversion H; subst.
    + split; [exists tr; rewrite Hpr; auto|].
      split; [congruence|]. right. split; [congruence|].
      split; [congruence|]. exists m. split; [reflexivity|].
      destruct o; [exact Hy|exact Hy|contradiction].
    + split; [exists tr; rewrite Hpr; auto|].
      split; [congruence|]. right. split; [congruence|].
      split; [congruence|]. exists m. split; [reflexivity|exact Hy].
Qed.

Lemma process_result_inv env tid uid k w r w2 :
  process_match_task env tid uid k w = (TaskReturn r, w2) ->
  flag_iff_fallback r /\ fallback_shape r /\ scores_in_unit r.
Proof.
  intro H. apply process_cases in H as [_ [_ [H|H]]].
  - destruct H as [_ [_ [ms [r0 [_ [He Hr]]]]]]. inversion Hr; subst.
    apply decision_engine_inv in He.
    unfold flag_iff_fallback, fallback_shape, scores_in_unit in *.
    destruct r0; simpl in *. exact He.
  - destruct H as [_ [_ [m [_ [_ [ps [cms [Hp [Hz ->]]]]]]]]].
    unfold flag_iff_fallback, fallback_shape, scores_in_unit; simpl.
    apply get_popular_length in Hp.
    pose proof (zero_scored_shape _ _ Hz) as [Hl Hf].
    apply zero_scored_unit in Hz.
    split; [tauto|]. split; [|exact Hz]. intros _. split; [lia|exact Hf].
Qed.

Lemma run_task_final fuel envs tid uid k w ds o w' :
  run_task fuel envs tid uid k w = (ds, Some o, w') ->
  exists j w0, process_match_task (envs j) tid uid j w0 = (o, w').
Proof.
  revert k w ds. induction fuel as [|fuel IH]; intros k w ds; simpl.
  - intro H. inversion H.
  - destruct (process_match_task (envs k) tid uid k w) as [o1 w1] eqn:Ep.
    destruct o1 as [r|d m|m].
    + intro H. inversion H; subst. eauto.
    + destruct (run_task fuel envs tid uid (S k) w1) as [[ds' fin] w2] eqn:Er.
      intro H. inversion H; subst. eapply IH. exact Er.
    + intro H. inversion H; subst. eauto.
Qed.

Lemma run_task_fbc fuel envs tid uid k w ds fin w' :
  run_task fuel envs tid uid k w = (ds, fin, w') -> fbc w' = fbc w.
Proof.
  revert k w ds. induction fuel as [|fuel IH]; intros k w ds; simpl.
  - intro H. inversion H; subst. reflexivity.
  - destruct (process_match_task (envs k) tid uid k w) as [o1 w1] eqn:Ep.
    apply process_cases in Ep as [_ [Hfb _]].
    destruct o1 as [r|d m|m].
    + intro H. inversion H; subst. exact Hfb.
    + destruct (run_task fuel envs tid uid (S k) w1) as [[ds' fin'] w2] eqn:Er.
      intro H. inversion H; subst. rewrite (IH _ _ _ Er). exact Hfb.
    + intro H. inversion H; subst. exact Hfb.
Qed.

Lemma run_task_counters fuel envs tid uid k w ds fin w' :
  run_task fuel envs tid uid k w = (ds, fin, w') ->
  (sc w' = sc w /\ (fc w + List.length ds <= fc w')%nat) \/
  (sc w' = S (sc w) /\ fc w' = (fc w + List.length ds)%nat).
Proof.
  revert k w ds. induction fuel as [|fuel IH]; intros k w ds; simpl.
  - intro H. inversion H; subst. left. simpl. lia.
  - destruct (process_match_task (envs k) tid uid k w) as [o1 w1] eqn:Ep.
    apply process_cases in Ep as [_ [_ Hc]].
    destruct o1 as [r|d m|m].
    + intro H. inversion H; subst. simpl.
      destruct Hc as [[Hs [Hf _]]|[Hs [Hf _]]]; [right|left]; lia.
    + destruct (run_task fuel envs tid uid (S k) w1) as [[ds' fin'] w2] eqn:Er.
      intro H. inversion H; subst. simpl.
      destruct Hc as [[_ [_ [ms [r0 [_ [_ Ho]]]]]]|[Hs [Hf _]]];
        [discriminate|].
      destruct (IH _ _ _ Er) as [[Hs' Hf']|[Hs' Hf']]; [left|right]; lia.
    + intro H. inversion H; subst. simpl.
      destruct Hc as [[_ [_ [ms [r0 [_ [_ Ho]]]]]]|[Hs [Hf _]]];
        [discriminate|]. left. lia.
Qed.

Lemma run_task_bound fuel envs tid uid k w ds fin w' :
  (k + fuel = 4)%nat -> (k <= 3)%nat ->
  run_task fuel envs tid uid k w = (ds, fin, w') ->
  fin <> None /\
  ds = map (fun i => (2 ^ i)%nat) (seq k (List.length ds)) /\
  (k + List.length ds <= 3)%nat /\
  exists tr, progress w' = progress w ++ tr /\
             Forall (fun e => (k <= fst e <= 3)%nat) tr.
Proof.
  revert k w ds. induction fuel as [|fuel IH]; intros k w ds Hk Hk3.
  - lia.
  - simpl.
    destruct (process_match_task (envs k) tid uid k w) as [o1 w1] eqn:Ep.
    apply process_cases in Ep as [[tr [Htr Hall]] [_ Hc]].
    assert (Hall' : Forall (fun e => (k <= fst e <= 3)%nat)
                      ((k, Sanitization) :: tr)).
    { constructor; [simpl; lia|].
      eapply Forall_impl; [|exact Hall]. intros e He. simpl in He. lia. }
    destruct o1 as [r|d m|m].
    + intro H. inversion H; subst. split; [discriminate|].
      split; [reflexivity|]. split; [simpl; lia|].
      eexists. split; [exact Htr|exact Hall'].
    + destruct (run_task fuel envs tid uid (S k) w1) as [[ds' fin'] w2] eqn:Er.
      intro H. inversion H; subst.
      destruct Hc as [[_ [_ [ms [r0 [_ [_ Ho]]]]]]|[_ [_ [m' [_ [Hd [_ [_ Hlt]]]]]]]];
        [discriminate|].
      unfold max_retries in Hlt.
      destruct (IH (S k) w1 ds' ltac:(lia) ltac:(lia) Er)
        as [Hfin [Hds [Hlen [tr' [Htr' Hall2]]]]].
      split; [exact Hfin|]. split.
      { simpl. rewrite Hd. f_equal. exact Hds. }
      split; [simpl; lia|].
      exists (((k, Sanitization) :: tr) ++ tr'). split.
      { rewrite Htr', Htr. rewrite <- app_assoc. reflexivity. }
      apply Forall_app. split; [exact Hall'|].
      eapply Forall_impl; [|exact Hall2]. intros e He. simpl in He |- *. lia.
    + intro H. inversion H; subst. split; [discriminate|].
      split; [reflexivity|]. split; [simpl; lia|].
      eexists. split; [exact Htr|exact Hall'].
Qed.

(** ** C4: transient errors re-schedule the whole task *)

(** Claim C4, as the code has it: when the guarded block raises an error
    whose message contains one of the markers ["429"], ["timeout"],
    ["ConnectionError"], ["ServiceUnavailable"], ["Temporary"] and the retry
    counter [k] is below 3, the execution ends by re-scheduling the task
    with countdown [2^k]; the next execution runs the whole task again with
    retry counter [k + 1], from the sanitization phase on (every execution
    reports the sanitization step first).  Over a task, the countdowns are a
    prefix of [1; 2; 4], the task always ends, and no execution runs with a
    retry counter above 3. *)
Theorem transient_error_reschedules_task :
  (forall env tid uid k w m w1,
     guarded env tid uid k w = (Raise m, w1) ->
     is_transient m = true -> (k < max_retries)%nat ->
     fst (process_match_task env tid uid k w) = TaskRetry (2 ^ k) m) /\
  (forall fuel envs tid uid k w d m w1,
     process_match_task (envs k) tid uid k w = (TaskRetry d m, w1) ->
     run_task (S fuel) envs tid uid k w =
     let '(ds, fin, w2) := run_task fuel envs tid uid (S k) w1 in
     (d :: ds, fin, w2)) /\
  (forall env tid uid k w o w1,
     process_match_task env tid uid k w = (o, w1) ->
     exists tr, progress w1 = progress w ++ (k, Sanitization) :: tr) /\
  (forall envs tid uid w ds fin w',
     celery_run envs tid uid w = (ds, fin, w') ->
     fin <> None /\
     (ds = [] \/ ds = [1%nat] \/ ds = [1; 2]%nat \/ ds = [1; 2; 4]%nat) /\
     exists tr, progress w' = progress w ++ tr /\
                Forall (fun e => (fst e <= 3)%nat) tr).
Proof.
  split; [|split; [|split]].
  - intros env tid uid k w m w1 Hg Ht Hk. unfold process_match_task.
    rewrite Hg.
    destruct (handler env tid uid k m w1) as [y w2] eqn:Eh.
    unfold handler, bind, lift, incr_failure, ret in Eh. simpl in Eh.
    rewrite Ht in Eh. apply Nat.ltb_lt in Hk. rewrite Hk in Eh.
    simpl in Eh. inversion Eh; subst. reflexivity.
  - intros fuel envs tid uid k w d m w1 Hp. simpl. rewrite Hp. reflexivity.
  - intros env tid uid k w o w1 Hp.
    apply process_cases in Hp as [[tr [Htr _]] _]. exists tr. exact Htr.
  - intros envs tid uid w ds fin w' Hr. unfold celery_run in Hr.
    apply run_task_bound in Hr as [Hfin [Hds [Hlen [tr [Htr Hall]]]]];
      [|reflexivity|lia].
    split; [exact Hfin|]. split.
    + destruct ds as [|a [|b [|c [|e ds]]]]; simpl in Hlen;
        [left; reflexivity| | | |lia]; rewrite Hds; simpl; auto.
    + exists tr. split; [exact Htr|].
      eapply Forall_impl; [|exact Hall]. intros e He. simpl in He. lia.
Qed.

(** Claim C4 as stated does not hold: a retry does not re-schedule the phase
    that raised.  The embedding call raising a connection error on the first
    execution stops it in the vectorization phase; the retried execution
    (countdown 1 second) reports the sanitization step first and runs every
    phase again. *)
Lemma transient_retry_restarts_from_sanitization :
  let '(ds, fin, w') := celery_run envs_embed_flaky "task-1" "user-1" w_init in
  ds = [1%nat] /\
  progress w' =
    [(0, Sanitization); (0, Vectorization);
     (1, Sanitization); (1, Vectorization); (1, HybridMatching);
     (1, DecisionEngine)]%nat /\
  nth_error (progress w') 2 <> Some (1%nat, Vectorization).
Proof.
  vm_compute. split; [reflexivity|]. split; [reflexivity|]. discriminate.
Qed.

(** ** C6: the flag and the shape of FALLBACK results *)

(** Claim C6: for every MatchResult the task returns,
    [requires_profile_update] is true exactly when the tier is FALLBACK, and
    a FALLBACK result has at most 5 matches, each scored [0.0]. *)
Theorem fallback_flag_and_shape envs tid uid w ds r w' :
  celery_run envs tid uid w = (ds, Some (TaskReturn r), w') ->
  (requires_profile_update r = true <-> tier r = FALLBACK) /\
  (tier r = FALLBACK ->
   (List.length (matches r) <= 5)%nat /\
   Forall (fun cm => cm_match_score cm = 0) (matches r)).
Proof.
  intro H. apply run_task_final in H as [j [w0 Hp]].
  apply process_result_inv in Hp as [H1 [H2 _]]. exact (conj H1 H2).
Qed.

(** ** C9: match scores lie in [0, 1] *)

(** Claim C9: every CommunityMatch of a MatchResult returned by the task has
    a score in [0, 1]. *)
Theorem returned_scores_in_unit envs tid uid w ds r w' :
  celery_run envs tid uid w = (ds, Some (TaskReturn r), w') ->
  Forall (fun cm => 0 <= cm_match_score cm <= 1) (matches r).
Proof.
  intro H. apply run_task_final in H as [j [w0 Hp]].
  apply process_result_inv in Hp as [_ [_ H3]]. exact H3.
Qed.

(** ** C10: the failure counter counts every caught exception *)

(** Claim C10: whenever the guarded block raises, the execution increments
    [failure_counter] by one (and leaves [success_counter] alone), whatever
    happens next, a retry included; so a task that ends by incrementing
    [success_counter] after [k] re-schedulings has incremented
    [failure_counter] [k] times. *)
Theorem failure_counter_counts_caught_errors :
  (forall env tid uid k w m w1 o w2,
     guarded env tid uid k w = (Raise m, w1) ->
     process_match_task env tid uid k w = (o, w2) ->
     fc w2 = S (fc w) /\ sc w2 = sc w) /\
  (forall envs tid uid w ds fin w',
     celery_run envs tid uid w = (ds, fin, w') ->
     sc w' = S (sc w) ->
     fc w' = (fc w + List.length ds)%nat).
Proof.
  split.
  - intros env tid uid k w m w1 o w2 Hg Hp.
    unfold process_match_task in Hp. rewrite Hg in Hp.
    apply guarded_cases in Hg as [_ [_ [Hc _]]].
    destruct (handler env tid uid k m w1) as [y w3] eqn:Eh.
    apply handler_cases in Eh as [_ [_ [Hs [Hf _]]]].
    assert (w3 = w2) by (destruct y; inversion Hp; reflexivity). subst w3.
    unfold sc, fc in *. rewrite Hc in Hs, Hf. auto.
  - intros envs tid uid w ds fin w' Hr Hs.
    apply run_task_counters in Hr as [[Hs' _]|[_ Hf]]; [lia|exact Hf].
Qed.

(** ** C5: a permanent error goes to the fallback path *)

(** Claim C5 (code defect): the embedding call raising a permanent error
    leads to no retry and to the FALLBACK result, but [fallback_counter]
    stays 0: [process_match_task] declares it [global] and never increments
    it. *)
Theorem permanent_error_leaves_fallback_counter :
  let '(ds, fin, w') :=
    celery_run (fun _ => env_embed_fails "ValueError: unsupported input")
      "task-5" "user-5" w_init in
  ds = [] /\
  match fin with
  | Some (TaskReturn r) => tier r = FALLBACK
  | _ => False
  end /\
  fc w' = 1%nat /\ fbc w' = 0%nat.
Proof.
  vm_compute. repeat split.
Qed.

(** ** C2: no candidate in the user's location *)

(** Claim C2 (code defect): with no community in the user's city and
    timezone, [_hybrid_matching_algorithm] hands the popular records to the
    decision engine, whose [top_match["match_score"]] raises a [KeyError];
    the task ends through the exception handler: the returned result is the
    FALLBACK one (5 popular communities scored 0, profile update
    requested), but [failure_counter] is incremented instead of
    [success_counter] and nothing is published. *)
Theorem no_candidates_takes_exception_path :
  (let! ms := hybrid_matching_algorithm env_no_candidates in
   apply_decision_engine env_no_candidates "task-2" "user-2" ms)
    = Raise "'match_score'" /\
  let '(ds, fin, w') :=
    celery_run (fun _ => env_no_candidates) "task-2" "user-2" w_init in
  ds = [] /\
  match fin with
  | Some (TaskReturn r) =>
      tier r = FALLBACK /\ requires_profile_update r = true /\
      map cm_community_id (matches r) =
        ["pop1"; "pop2"; "pop3"; "pop4"; "pop5"]%string /\
      Forall (fun cm => cm_match_score cm = 0) (matches r)
  | _ => False
  end /\
  sc w' = 0%nat /\ fc w' = 1%nat /\ published w' = [].
Proof.
  vm_compute. split; [reflexivity|].
  repeat split; repeat constructor.
Qed.

(** ** Witnesses: the theorems applied at concrete inputs *)

Ltac q_arith := unfold Qle, Qlt; simpl; lia.

Lemma decision_tier_of_top_score_witness :
  (exists r, apply_decision_engine (env_scored (88 # 100)) "t" "u"
               [scored_match "c1" "Programming" (88 # 100)] = Ok r /\
             tier r = SOULMATE) /\
  (exists r, apply_decision_engine (env_scored (87 # 100)) "t" "u"
               [scored_match "c1" "Programming" (87 # 100)] = Ok r /\
             tier r = EXPLORER) /\
  (exists r, apply_decision_engine (env_scored (55 # 100)) "t" "u"
               [scored_match "c1" "Programming" (55 # 100)] = Ok r /\
             tier r = EXPLORER) /\
  (exists r, apply_decision_engine (env_scored (549999 # 1000000)) "t" "u"
               [scored_match "c1" "Programming" (549999 # 1000000)] = Ok r /\
             tier r = FALLBACK).
Proof.
  split; [|split; [|split]];
    match goal with
    | |- exists r, apply_decision_engine ?a ?b ?c ?d = Ok r /\ _ =>
        destruct (apply_decision_engine a b c d) as [r|m] eqn:E;
        [exists r; split; [reflexivity|]|vm_compute in E; discriminate E]
    end;
    match type of E with
    | apply_decision_engine ?env ?t ?u [?top] = Ok ?r =>
        destruct (decision_tier_of_top_score env t u top [] (score_of top) r
                    eq_refl E) as [H1 [H2 H3]]
    end.
  - apply H1. q_arith.
  - apply H2. split; q_arith.
  - apply H2. split; q_arith.
  - apply H3. q_arith.
Defined.

Lemma diversity_filter_moves_first_other_category_witness :
  apply_diversity_filter
    [scored_match "c1" "A" (9 # 10); scored_match "c2" "A" (8 # 10);
     scored_match "c3" "A" (7 # 10); scored_match "c4" "B" (6 # 10);
     scored_match "c5" "A" (5 # 10)] =
    [scored_match "c1" "A" (9 # 10); scored_match "c2" "A" (8 # 10);
     scored_match "c4" "B" (6 # 10); scored_match "c3" "A" (7 # 10);
     scored_match "c5" "A" (5 # 10)] /\
  apply_diversity_filter
    [scored_match "c1" "A" (9 # 10); scored_match "c2" "A" (8 # 10)] =
    [scored_match "c1" "A" (9 # 10); scored_match "c2" "A" (8 # 10)] /\
  apply_diversity_filter
    [scored_match "c1" "A" (9 # 10); scored_match "c2" "A" (8 # 10);
     scored_match "c3" "A" (7 # 10); scored_match "c4" "A" (6 # 10)] =
    [scored_match "c1" "A" (9 # 10); scored_match "c2" "A" (8 # 10);
     scored_match "c3" "A" (7 # 10); scored_match "c4" "A" (6 # 10)] /\
  map category (apply_diversity_filter
    [scored_match "c1" "A" (9 # 10); scored_match "c2" "A" (8 # 10);
     scored_match "c3" "A" (7 # 10); scored_match "c4" "B" (6 # 10);
     scored_match "c5" "A" (5 # 10)]) = ["A"; "A"; "B"; "A"; "A"]%string.
Proof.
  destruct diversity_filter_moves_first_other_category as [P1 [P2 [P3 P4]]].
  split; [|split; [|split]].
  - apply (P2 _ _ _ [] _ [_]); [reflexivity|reflexivity|constructor|discriminate].
  - apply P1. simpl. lia.
  - apply P3. right. repeat constructor.
  - apply P4; reflexivity.
Defined.

Lemma transient_error_reschedules_task_witness :
  fst (process_match_task (env_embed_fails "timeout") "t" "u" 1 w_init)
    = TaskRetry (2 ^ 1) "timeout" /\
  run_task 4 envs_embed_flaky "t" "u" 0 w_init =
    (let '(ds, fin, w2) :=
       run_task 3 envs_embed_flaky "t" "u" 1
         (snd (process_match_task (envs_embed_flaky 0) "t" "u" 0 w_init)) in
     (1%nat :: ds, fin, w2)) /\
  (exists tr, progress (snd (process_match_task (envs_embed_flaky 1) "t" "u" 1
                               w_init)) = progress w_init ++ (1%nat, Sanitization) :: tr) /\
  snd (fst (celery_run (fun _ => env_embed_fails "timeout") "t" "u" w_init))
    <> None.
Proof.
  destruct transient_error_reschedules_task as [P1 [P2 [P3 P4]]].
  split; [|split; [|split]].
  - apply (P1 _ _ _ _ _ _ (snd (guarded (env_embed_fails "timeout") "t" "u" 1
                                   w_init))); [reflexivity|reflexivity|].
    unfold max_retries. lia.
  - apply (P2 3%nat envs_embed_flaky "t"%string "u"%string 0%nat w_init 1%nat
             "ConnectionError: connection reset by peer"%string).
    reflexivity.
  - eapply P3. apply surjective_pairing.
  - destruct (celery_run (fun _ => env_embed_fails "timeout") "t" "u" w_init)
      as [[ds fin] w'] eqn:E.
    exact (proj1 (P4 _ _ _ _ _ _ _ E)).
Defined.

Lemma fallback_flag_and_shape_witness :
  let '(ds, fin, w') :=
    celery_run (fun _ => env_scored (1 # 5)) "t" "u" w_init in
  match fin with
  | Some (TaskReturn r) =>
      (requires_profile_update r = true <-> tier r = FALLBACK) /\
      (tier r = FALLBACK ->
       (List.length (matches r) <= 5)%nat /\
       Forall (fun cm => cm_match_score cm = 0) (matches r))
  | _ => False
  end.
Proof.
  destruct (celery_run (fun _ => env_scored (1 # 5)) "t" "u" w_init)
    as [[ds fin] w'] eqn:E.
  pose proof E as E0. vm_compute in E. injection E as <- <- <-.
  exact (fallback_flag_and_shape _ _ _ _ _ _ _ E0).
Defined.

Lemma soulmate_single_top_match_witness :
  exists r,
    apply_decision_engine (env_scored (92 # 100)) "t" "u"
      [scored_match "c1" "Programming" (92 # 100);
       scored_match "c2" "Programming" (1 # 2)] = Ok r /\
    tier r = SOULMATE /\ List.length (matches r) = 1%nat /\
    auto_joined_community r = Some "c1"%string.
Proof.
  eexists. split.
  - apply soulmate_single_top_match; [reflexivity|q_arith|q_arith].
  - repeat split.
Defined.

Lemma explorer_first_five_witness :
  exists r,
    apply_decision_engine (env_scored (70 # 100)) "t" "u"
      [scored_match "c1" "A" (70 # 100); scored_match "c2" "A" (6 # 10);
       scored_match "c3" "B" (5 # 10); scored_match "c4" "A" (4 # 10);
       scored_match "c5" "C" (3 # 10); scored_match "c6" "A" (2 # 10);
       scored_match "c7" "A" (1 # 10); scored_match "c8" "D" (1 # 20)] = Ok r /\
    tier r = EXPLORER /\
    map cm_community_id (matches r) = ["c1"; "c2"; "c3"; "c4"; "c5"]%string.
Proof.
  eexists. split.
  - apply explorer_first_five with (s := 70 # 100);
      [reflexivity|q_arith|q_arith|].
    repeat constructor; unfold score_in_unit, score_of; simpl; q_arith.
  - split; reflexivity.
Defined.

Lemma returned_scores_in_unit_witness :
  let '(ds, fin, w') :=
    celery_run envs_embed_flaky "t" "u" w_init in
  match fin with
  | Some (TaskReturn r) =>
      Forall (fun cm => 0 <= cm_match_score cm <= 1) (matches r)
  | _ => False
  end.
Proof.
  destruct (celery_run envs_embed_flaky "t" "u" w_init)
    as [[ds fin] w'] eqn:E.
  pose proof E as E0. vm_compute in E. injection E as <- <- <-.
  exact (returned_scores_in_unit _ _ _ _ _ _ _ E0).
Defined.

Lemma failure_counter_counts_caught_errors_witness :
  fc (snd (process_match_task (env_embed_fails "timeout") "t" "u" 0 w_init))
    = 1%nat /\
  fc (snd (celery_run envs_embed_flaky "t" "u" w_init)) = 1%nat.
Proof.
  destruct failure_counter_counts_caught_errors as [P1 P2]. split.
  - apply (P1 (env_embed_fails "timeout") "t"%string "u"%string 0%nat w_init
             "timeout"%string
             (snd (guarded (env_embed_fails "timeout") "t" "u" 0 w_init))
             (fst (process_match_task (env_embed_fails "timeout") "t" "u" 0
                     w_init))).
    + reflexivity.
    + apply surjective_pairing.
  - destruct (celery_run envs_embed_flaky "t" "u" w_init)
      as [[ds fin] w'] eqn:E.
    pose proof E as E0. vm_compute in E. injection E as <- <- <-.
    exact (P2 _ _ _ _ _ _ _ E0 eq_refl).
Defined.

(** * Further properties of the code *)

(** ** Lemmas on the string functions *)

Lemma length_list_ascii_of_string s :
  List.length (list_ascii_of_string s) = String.length s.
Proof. induction s as [|c s IH]; simpl; congruence. Qed.

Lemma length_string_of_list_ascii l :
  String.length (string_of_list_ascii l) = List.length l.
Proof. induction l as [|c l IH]; simpl; congruence. Qed.

Lemma lstrip_split l :
  exists t, l = t ++ lstrip_chars l /\ Forall (fun c => py_isspace c = true) t.
Proof.
  induction l as [|c l [t [Ht Hf]]]; simpl.
  - exists []. auto.
  - destruct (py_isspace c) eqn:E.
    + exists (c :: t). simpl. rewrite <- Ht. auto.
    + exists []. auto.
Qed.

Lemma lstrip_head l c r : lstrip_chars l = c :: r -> py_isspace c = false.
Proof.
  induction l as [|d l IH]; simpl; [discriminate|].
  destruct (py_isspace d) eqn:E; [exact IH|].
  intro H. inversion H; subst. exact E.
Qed.

Lemma lstrip_fix l :
  (forall c r, l = c :: r -> py_isspace c = false) -> lstrip_chars l = l.
Proof.
  destruct l as [|c r]; simpl; [reflexivity|].
  intro H. rewrite (H c r eq_refl). reflexivity.
Qed.

Lemma lstrip_idem l : lstrip_chars (lstrip_chars l) = lstrip_chars l.
Proof. apply lstrip_fix. intros c r H. exact (lstrip_head _ _ _ H). Qed.

Lemma lstrip_length l : (List.length (lstrip_chars l) <= List.length l)%nat.
Proof.
  destruct (lstrip_split l) as [t [Ht _]].
  pose proof (f_equal (@List.length ascii) Ht) as HL.
  rewrite length_app in HL. lia.
Qed.

Lemma strip_chars_idem l : strip_chars (strip_chars l) = strip_chars l.
Proof.
  unfold strip_chars.
  destruct (lstrip_split (rev (lstrip_chars l))) as [t [Ht _]].
  assert (Hl2 : lstrip_chars (rev (lstrip_chars (rev (lstrip_chars l)))) =
                rev (lstrip_chars (rev (lstrip_chars l)))).
  { apply lstrip_fix. intros c r Hc.
    apply (lstrip_head l c (r ++ rev t)).
    rewrite <- (rev_involutive (lstrip_chars l)), Ht, rev_app_distr, Hc.
    reflexivity. }
  rewrite Hl2, rev_involutive, lstrip_idem. reflexivity.
Qed.

Lemma py_isspace_lower c : py_isspace (py_lower_char c) = py_isspace c.
Proof. destruct c as [[] [] [] [] [] [] [] []]; reflexivity. Qed.

Lemma py_lower_char_idem c : py_lower_char (py_lower_char c) = py_lower_char c.
Proof. destruct c as [[] [] [] [] [] [] [] []]; reflexivity. Qed.

Lemma lstrip_map_lower l :
  lstrip_chars (map py_lower_char l) = map py_lower_char (lstrip_chars l).
Proof.
  induction l as [|c l IH]; simpl; [reflexivity|].
  rewrite py_isspace_lower. destruct (py_isspace c); [exact IH|reflexivity].
Qed.

Lemma strip_map_lower l :
  strip_chars (map py_lower_char l) = map py_lower_char (strip_chars l).
Proof.
  unfold strip_chars.
  rewrite lstrip_map_lower, <- map_rev, lstrip_map_lower, <- map_rev.
  reflexivity.
Qed.

Lemma py_strip_idem s : py_strip (py_strip s) = py_strip s.
Proof.
  unfold py_strip. rewrite list_ascii_of_string_of_list_ascii, strip_chars_idem.
  reflexivity.
Qed.

Lemma py_strip_length s : (String.length (py_strip s) <= String.length s)%nat.
Proof.
  unfold py_strip, strip_chars.
  rewrite length_string_of_list_ascii, length_rev,
    <- length_list_ascii_of_string.
  eapply Nat.le_trans; [apply lstrip_length|].
  rewrite length_rev. apply lstrip_length.
Qed.

Lemma py_strip_lower s : py_strip (py_lower s) = py_lower (py_strip s).
Proof.
  unfold py_strip, py_lower.
  rewrite !list_ascii_of_string_of_list_ascii, strip_map_lower. reflexivity.
Qed.

Lemma py_lower_idem s : py_lower (py_lower s) = py_lower s.
Proof.
  unfold py_lower. rewrite list_ascii_of_string_of_list_ascii, map_map.
  f_equal. apply map_ext. apply py_lower_char_idem.
Qed.

Lemma py_lower_length s : String.length (py_lower s) = String.length s.
Proof.
  unfold py_lower.
  rewrite length_string_of_list_ascii, length_map, length_list_ascii_of_string.
  reflexivity.
Qed.

Lemma normalised_tag tag :
  py_str_truthy (py_strip tag) = true ->
  py_lower (py_strip tag) <> EmptyString /\
  py_strip (py_lower (py_strip tag)) = py_lower (py_strip tag) /\
  py_lower (py_lower (py_strip tag)) = py_lower (py_strip tag).
Proof.
  intro H. split; [|split].
  - intro He. apply (f_equal String.length) in He.
    rewrite py_lower_length in He.
    destruct (py_strip tag); [discriminate H|simpl in He; discriminate He].
  - rewrite py_strip_lower, py_strip_idem. reflexivity.
  - apply py_lower_idem.
Qed.

Lemma nodup_length_le {A} dec (l : list A) :
  (List.length (nodup dec l) <= List.length l)%nat.
Proof.
  induction l as [|x l IH]; simpl; [lia|].
  destruct (in_dec dec x l); simpl; lia.
Qed.

(** ** Lemmas on the diversity filter and the join *)

Lemma first_diff_from_some d i rest j :
  first_diff_from d i rest = Some j ->
  exists pre x post, rest = pre ++ x :: post /\
    Forall (fun m => category m = d) pre /\ category x <> d /\
    j = (i + List.length pre)%nat.
Proof.
  revert i. induction rest as [|m rest IH]; intro i; simpl; [discriminate|].
  destruct (String.eqb (category m) d) eqn:E; simpl; intro H.
  - apply IH in H as [pre [x [post [-> [Hp [Hx Hj]]]]]].
    apply String.eqb_eq in E.
    exists (m :: pre), x, post. split; [reflexivity|].
    split; [constructor; assumption|]. split; [exact Hx|]. simpl. lia.
  - inversion H; subst j. apply String.eqb_neq in E.
    exists [], m, rest. split; [reflexivity|]. split; [constructor|].
    split; [exact E|]. simpl. lia.
Qed.

Lemma diversity_filter_cases ms :
  apply_diversity_filter ms = ms \/
  exists a b c pre x post,
    ms = a :: b :: c :: pre ++ x :: post /\
    category b = category a /\ category c = category a /\
    Forall (fun m => category m = category a) pre /\
    category x <> category a /\
    apply_diversity_filter ms = a :: b :: x :: c :: pre ++ post.
Proof.
  destruct ms as [|a [|b [|c rest]]]; try (left; reflexivity).
  remember (apply_diversity_filter (a :: b :: c :: rest)) as r eqn:Er.
  unfold apply_diversity_filter in Er.
  destruct (List.length (a :: b :: c :: rest) <? 4)%nat; [left; exact Er|].
  cbn [firstn map skipn] in Er.
  destruct (List.length (nodup string_dec [category a; category b; category c])
              =? 1)%nat eqn:E1; [|left; exact Er].
  apply Nat.eqb_eq, nodup_three_one in E1 as [Hb Hc].
  cbn beta iota in Er.
  destruct (first_diff_from (category a) 3 rest) as [j|] eqn:Ef;
    [|left; exact Er].
  apply first_diff_from_some in Ef as [pre [x [post [-> [Hp [Hx ->]]]]]].
  change (a :: b :: c :: pre ++ x :: post)
    with ((a :: b :: c :: pre) ++ x :: post) in Er.
  replace (3 + List.length pre)%nat with (List.length (a :: b :: c :: pre))
    in Er by reflexivity.
  rewrite list_pop_app in Er. simpl in Er.
  right. exists a, b, c, pre, x, post. auto 7.
Qed.

Lemma diversity_filter_perm ms : Permutation (apply_diversity_filter ms) ms.
Proof.
  destruct (diversity_filter_cases ms)
    as [-> | [a [b [c [pre [x [post [-> [_ [_ [_ [_ ->]]]]]]]]]]]].
  - apply Permutation_refl.
  - do 2 apply perm_skip.
    change (c :: pre ++ x :: post) with ((c :: pre) ++ x :: post).
    change (x :: c :: pre ++ post) with (x :: (c :: pre) ++ post).
    apply Permutation_middle.
Qed.

Lemma diversity_filter_firstn2 ms :
  firstn 2 (apply_diversity_filter ms) = firstn 2 ms.
Proof.
  destruct (diversity_filter_cases ms)
    as [-> | [a [b [c [pre [x [post [-> [_ [_ [_ [_ ->]]]]]]]]]]]];
    reflexivity.
Qed.

Lemma community_map_lookup_some filtered cid c :
  community_map_lookup filtered cid = Some c ->
  In c filtered /\ community_id c = cid.
Proof.
  unfold community_map_lookup. intro H. apply find_some in H as [Hin Heq].
  split; [apply in_rev; exact Hin|apply String.eqb_eq; exact Heq].
Qed.

Lemma enrich_props filtered vms es :
  enrich filtered vms = Ok es ->
  (List.length es <= List.length vms)%nat /\
  Forall (fun e => exists s c, In (community_id e, s) vms /\
            match_score e = Some s /\ recent_activity e <> None /\
            In c filtered /\ community_id c = community_id e) es.
Proof.
  revert es. induction vms as [|[cid s] vms IH]; simpl; intros es H.
  - inversion H; subst. split; [simpl; lia|constructor].
  - destruct (community_map_lookup filtered cid) as [c|] eqn:El.
    + destruct (recent_activity c) as [act|]; [|discriminate].
      destruct (enrich filtered vms) as [rest|e] eqn:Er; simpl in H;
        [|discriminate].
      inversion H; subst es. destruct (IH rest eq_refl) as [Hl Hf].
      apply community_map_lookup_some in El as [Hc Hid].
      split; [simpl; lia|]. constructor.
      * exists s, c. simpl. split; [left; reflexivity|].
        split; [reflexivity|]. split; [discriminate|]. auto.
      * eapply Forall_impl; [|exact Hf].
        intros e [s' [c' [H1 H2]]]. exists s', c'.
        split; [right; exact H1|exact H2].
    + destruct (IH es H) as [Hl Hf]. split; [simpl; lia|].
      eapply Forall_impl; [|exact Hf].
      intros e [s' [c' [H1 H2]]]. exists s', c'.
      split; [right; exact H1|exact H2].
Qed.

Lemma vector_search_length env ids k vms :
  vector_search env ids k = Ok vms -> (List.length vms <= k)%nat.
Proof.
  unfold vector_search. destruct (vector_index env); simpl; intro H;
    [|discriminate].
  inversion H. apply firstn_le_length.
Qed.

(** ** Lemmas on the task *)

Lemma guarded_trace env tid uid k w x w1 :
  guarded env tid uid k w = (x, w1) ->
  exists n, (1 <= n <= 4)%nat /\
    progress w1 = progress w ++ map (fun p => (k, p)) (firstn n task_phases) /\
    match x with
    | Ok r => n = 4%nat /\ published w1 = published w ++ [(uid, r)]
    | Raise _ => published w1 = published w
    end.
Proof.
  unfold guarded, bind, lift, update_state, publish_match_result,
    incr_success, ret.
  destruct (sanitize_call env) as [san|e]; simpl; intro H.
  2:{ inversion H; subst; simpl. exists 1%nat. split; [lia|].
      split; reflexivity. }
  destruct (embed_call env) as [vec|e]; simpl in H.
  2:{ inversion H; subst; simpl. exists 2%nat. split; [lia|].
      rewrite <- app_assoc. split; reflexivity. }
  destruct (hybrid_matching_algorithm env) as [ms|e]; simpl in H.
  2:{ inversion H; subst; simpl. exists 3%nat. split; [lia|].
      rewrite <- !app_assoc. split; reflexivity. }
  destruct (apply_decision_engine env tid uid ms) as [r0|e]; simpl in H.
  2:{ inversion H; subst; simpl. exists 4%nat. split; [lia|].
      rewrite <- !app_assoc. split; reflexivity. }
  inversion H; subst; simpl. exists 4%nat. split; [lia|].
  rewrite <- !app_assoc. split; [reflexivity|]. split; reflexivity.
Qed.

Lemma process_trace env tid uid k w o w2 :
  process_match_task env tid uid k w = (o, w2) ->
  exists n, (1 <= n <= 4)%nat /\
    progress w2 = progress w ++ map (fun p => (k, p)) (firstn n task_phases) /\
    ((published w2 = published w /\ sc w2 = sc w) \/
     (n = 4%nat /\ exists r, o = TaskReturn r /\
        published w2 = published w ++ [(uid, r)] /\ sc w2 = S (sc w))).
Proof.
  intro H. unfold process_match_task in H.
  destruct (guarded env tid uid k w) as [x w1] eqn:Eg.
  pose proof (guarded_cases _ _ _ _ _ _ _ Eg) as [_ [_ Hgc]].
  apply guarded_trace in Eg as [n [Hn [Hp Hx]]].
  exists n. split; [exact Hn|].
  destruct x as [r|m].
  - inversion H; subst. split; [exact Hp|]. right.
    destruct Hx as [Hn4 Hpub]. destruct Hgc as [Hs _].
    split; [exact Hn4|]. exists r. split; [reflexivity|]. split; assumption.
  - destruct Hgc as [Hcnt Hpub1].
    destruct (handler env tid uid k m w1) as [y w3] eqn:Eh.
    apply handler_cases in Eh as [Hpr [Hpu [Hs _]]].
    assert (Hsc : sc w1 = sc w) by (unfold sc; rewrite Hcnt; reflexivity).
    destruct y as [o'|e]; inversion H; subst;
      (split; [rewrite Hpr; exact Hp|]); left; split; congruence.
Qed.


Lemma run_task_final_at fuel envs tid uid k w ds o w' :
  run_task fuel envs tid uid k w = (ds, Some o, w') ->
  exists w0, process_match_task (envs (k + List.length ds)%nat) tid uid
               (k + List.length ds) w0 = (o, w').
Proof.
  revert k w ds. induction fuel as [|fuel IH]; intros k w ds; simpl.
  - intro H. inversion H.
  - destruct (process_match_task (envs k) tid uid k w) as [o1 w1] eqn:Ep.
    destruct o1 as [r|d m|m].
    + intro H. inversion H; subst. exists w. simpl.
      rewrite Nat.add_0_r. exact Ep.
    + destruct (run_task fuel envs tid uid (S k) w1) as [[ds' fin] w2] eqn:Er.
      intro H. inversion H; subst. destruct (IH _ _ _ Er) as [w0 Hw0].
      exists w0. simpl. rewrite Nat.add_succ_r, <- Nat.add_succ_l. exact Hw0.
    + intro H. inversion H; subst. exists w. simpl.
      rewrite Nat.add_0_r. exact Ep.
Qed.

Lemma decision_engine_fields env tid uid ms r :
  apply_decision_engine env tid uid ms = Ok r ->
  task_id r = tid /\ user_id r = uid /\ ai_intro_generated r = false /\
  (auto_joined_community r <> None <-> tier r = SOULMATE) /\
  (forall cid, auto_joined_community r = Some cid ->
     exists cm, matches r = [cm] /\ cm_community_id cm = cid).
Proof.
  destruct ms as [|top rest]; cbn [apply_decision_engine]; intro H;
    ok_cases H; inversion H; subst; simpl.
  all: split; [reflexivity|]; split; [reflexivity|]; split; [reflexivity|].
  all: split; [split; intro HH; first [reflexivity | discriminate |
         discriminate HH | (exfalso; apply HH; reflexivity)]|].
  all: intros cid Hcid; try discriminate Hcid.
  injection Hcid as <-.
  match goal with
  | Hc : to_community_match _ None = Ok ?cm |- _ =>
      exists cm; split; [reflexivity|];
      unfold to_community_match in Hc;
      apply CommunityMatch_new_ok in Hc as [-> _]; reflexivity
  end.
Qed.

Lemma process_return_fields env tid uid k w r w2 :
  process_match_task env tid uid k w = (TaskReturn r, w2) ->
  task_id r = tid /\ user_id r = uid /\ ai_intro_generated r = false /\
  processing_time_ms r = elapsed_ms env /\
  (auto_joined_community r <> None <-> tier r = SOULMATE) /\
  (forall cid, auto_joined_community r = Some cid ->
     exists cm, matches r = [cm] /\ cm_community_id cm = cid).
Proof.
  intro H. apply process_cases in H as [_ [_ [H|H]]].
  - destruct H as [_ [_ [ms [r0 [_ [He Hr]]]]]]. inversion Hr; subst r.
    apply decision_engine_fields in He as (H1 & H2 & H3 & H4 & H5).
    simpl. split; [exact H1|]. split; [exact H2|]. split; [exact H3|].
    split; [reflexivity|]. split; [exact H4|exact H5].
  - destruct H as [_ [_ [m [_ [_ [ps [cms [_ [_ ->]]]]]]]]]. simpl.
    split; [reflexivity|]. split; [reflexivity|]. split; [reflexivity|].
    split; [reflexivity|]. split.
    + split; intro HH; [exfalso; apply HH; reflexivity|discriminate HH].
    + intros cid Hcid. discriminate Hcid.
Qed.

Lemma process_after_permanent_error env tid uid k w m :
  fst (guarded env tid uid k w) = Raise m ->
  (is_transient m = false \/ (max_retries <= k)%nat) ->
  fst (process_match_task env tid uid k w) =
  match (let! ps := get_popular_communities env 5 in zero_scored ps) with
  | Ok cms => TaskReturn (mkMatchResult tid uid FALLBACK cms None false true
                            (elapsed_ms env))
  | Raise e => TaskCrash e
  end.
Proof.
  intros Hg Hn. unfold process_match_task.
  destruct (guarded env tid uid k w) as [x w1]. simpl in Hg. subst x.
  assert (Hc : (is_transient m && (k <? max_retries)%nat) = false).
  { destruct Hn as [Hn|Hn]; [rewrite Hn; reflexivity|].
    apply andb_false_iff. right. apply Nat.ltb_ge. exact Hn. }
  unfold handler, bind, lift, incr_failure, ret. cbn beta iota zeta.
  rewrite Hc.
  destruct (get_popular_communities env 5) as [ps|e]; cbn [res_bind];
    [|reflexivity].
  destruct (zero_scored ps); reflexivity.
Qed.

(** ** Properties of the diversity filter *)

(** [_apply_diversity_filter] only reorders the matches: its output is a
    permutation of its input, and the first two entries stay in place. *)
Theorem diversity_filter_only_reorders ms :
  Permutation (apply_diversity_filter ms) ms /\
  firstn 2 (apply_diversity_filter ms) = firstn 2 ms.
Proof.
  split; [apply diversity_filter_perm|apply diversity_filter_firstn2].
Qed.

(** Running [_apply_diversity_filter] twice gives the same list as running it
    once: after a move the third entry has another category than the first. *)
Theorem diversity_filter_idempotent ms :
  apply_diversity_filter (apply_diversity_filter ms) =
  apply_diversity_filter ms.
Proof.
  destruct (diversity_filter_cases ms)
    as [E | [a [b [c [pre [x [post [_ [Hb [Hc [_ [Hx E]]]]]]]]]]]];
    rewrite E; [exact E|].
  destruct (diversity_filter_cases (a :: b :: x :: c :: pre ++ post))
    as [E'|[a' [b' [c' [pre' [x' [post' [Hm [Hb' [Hc' _]]]]]]]]]];
    [exact E'|].
  injection Hm as E1 E2 E3 _. congruence.
Qed.

(** Composition of the last two steps of the hybrid algorithm with the
    decision engine: when the top score is above 0.87 or below 0.55, the
    decision engine returns the same result (or raises the same error) on
    the filtered list as on the unfiltered one. *)
Theorem decision_engine_ignores_diversity_filter env tid uid top rest s :
  match_score top = Some s -> (87 # 100 < s \/ s < 55 # 100) ->
  apply_decision_engine env tid uid (apply_diversity_filter (top :: rest)) =
  apply_decision_engine env tid uid (top :: rest).
Proof.
  intros Hs Hcase.
  pose proof (diversity_filter_firstn2 (top :: rest)) as H2.
  destruct (apply_diversity_filter (top :: rest)) as [|top' rest'];
    simpl in H2; [discriminate H2|].
  injection H2 as <- _.
  cbn [apply_decision_engine]. unfold get_match_score. rewrite Hs.
  cbn [res_bind].
  destruct Hcase as [Hhi|Hlo].
  - apply Qltb_iff in Hhi. rewrite Hhi. reflexivity.
  - assert (E1 : Qltb (87 # 100) s = false).
    { apply Qltb_false. apply Qlt_le_weak.
      apply Qlt_trans with (55 # 100); [exact Hlo|reflexivity]. }
    assert (E2 : Qleb (55 # 100) s = false) by (apply Qleb_false; exact Hlo).
    rewrite E1, E2. reflexivity.
Qed.

(** ** Properties of the hybrid algorithm *)

(** When the location query returns candidates, [_hybrid_matching_algorithm]
    returns at most 20 matches; each carries a [match_score] and a
    [recent_activity], its id and score are a pair of the vector search
    (restricted to the candidates' ids), and its id is a candidate's id.  So
    the decision engine's [top_match["match_score"]] never raises on this
    branch. *)
Theorem hybrid_matches_scored_and_local env c cs ms :
  filter_communities_by_location env 1000 = Ok (c :: cs) ->
  hybrid_matching_algorithm env = Ok ms ->
  (List.length ms <= 20)%nat /\
  exists vms, vector_search env (map community_id (c :: cs)) 20 = Ok vms /\
    Forall (fun m => exists s, match_score m = Some s /\
              In (community_id m, s) vms /\
              In (community_id m) (map community_id (c :: cs)) /\
              recent_activity m <> None) ms.
Proof.
  intros Hf Hh. unfold hybrid_matching_algorithm in Hh. rewrite Hf in Hh.
  cbn [res_bind] in Hh.
  destruct (vector_search env (map community_id (c :: cs)) 20)
    as [vms|e] eqn:Ev; cbn [res_bind] in Hh; [|discriminate].
  destruct (enrich (c :: cs) vms) as [es|e] eqn:Ee; cbn [res_bind] in Hh;
    [|discriminate].
  inversion Hh; subst ms. clear Hh.
  apply enrich_props in Ee as [Hl Hall].
  pose proof (diversity_filter_perm es) as Hp.
  split.
  - rewrite (Permutation_length Hp).
    apply vector_search_length in Ev. lia.
  - exists vms. split; [reflexivity|].
    apply Forall_forall. intros m Hm.
    apply (Permutation_in _ Hp) in Hm.
    rewrite Forall_forall in Hall.
    destruct (Hall m Hm) as [s [c' [H1 [H2 [H3 [H4 H5]]]]]].
    exists s. split; [exact H2|]. split; [exact H1|]. split; [|exact H3].
    rewrite <- H5. apply in_map. exact H4.
Qed.

(** ** Properties of the task *)

(** Every result the task returns (after any number of retries) carries the
    task's id and user id and the elapsed time of its last execution; its
    [ai_intro_generated] is always false; it has an auto-joined community
    exactly when it is SOULMATE, and then that community is its single
    match. *)
Theorem returned_result_fields envs tid uid w ds r w' :
  celery_run envs tid uid w = (ds, Some (TaskReturn r), w') ->
  task_id r = tid /\ user_id r = uid /\ ai_intro_generated r = false /\
  processing_time_ms r = elapsed_ms (envs (List.length ds)) /\
  (auto_joined_community r <> None <-> tier r = SOULMATE) /\
  (forall cid, auto_joined_community r = Some cid ->
     exists cm, matches r = [cm] /\ cm_community_id cm = cid).
Proof.
  intro H. apply run_task_final_at in H as [w0 H].
  exact (process_return_fields _ _ _ _ _ _ _ H).
Qed.


(** One execution reports a non-empty prefix of the phases sanitization,
    vectorization, hybrid matching, decision engine, in this order, each
    tagged with the retry count; when it publishes a result, all four were
    reported. *)
Theorem phases_reported_in_order env tid uid k w o w2 :
  process_match_task env tid uid k w = (o, w2) ->
  exists n, (1 <= n <= 4)%nat /\
    progress w2 = progress w ++ map (fun p => (k, p)) (firstn n task_phases) /\
    (published w2 <> published w -> n = 4%nat).
Proof.
  intro H. apply process_trace in H as [n [Hn [Hp Hc]]].
  exists n. split; [exact Hn|]. split; [exact Hp|].
  intro Hne. destruct Hc as [[Hpub _]|[Hn4 _]]; [contradiction|exact Hn4].
Qed.


(** A phase running past its [with_timeout] limit raises
    [asyncio.TimeoutError()], whose message [str(e)] is empty: it contains
    none of the transient markers, so the task is never retried after it,
    whatever the retry count. *)
Theorem phase_timeout_not_retried env tid uid k w :
  fst (guarded env tid uid k w) = Raise EmptyString ->
  forall d m, fst (process_match_task env tid uid k w) <> TaskRetry d m.
Proof.
  intros Hg d m.
  rewrite (process_after_permanent_error env tid uid k w EmptyString Hg
             (or_introl eq_refl)).
  match goal with
  | |- match ?x with _ => _ end <> _ => destruct x
  end; discriminate.
Qed.

(** ** Properties of the validators *)

(** An accepted bio is the stripped input; it has 10 to 500 characters, no
    surrounding whitespace, and validating it again returns it unchanged. *)
Theorem bio_field_normalised v s :
  bio_field v = Ok s ->
  s = py_strip v /\ (10 <= String.length s <= 500)%nat /\
  py_strip s = s /\ bio_field s = Ok s.
Proof.
  unfold bio_field, validate_bio.
  destruct ((10 <=? String.length v) && (String.length v <=? 500))%nat eqn:E;
    [|discriminate].
  destruct (String.length (py_strip v) <? 10)%nat eqn:E2; intro H;
    [discriminate|].
  inversion H; subst s. clear H.
  apply andb_true_iff in E as [_ E]. apply Nat.leb_le in E.
  apply Nat.ltb_ge in E2.
  pose proof (py_strip_length v) as Hle.
  split; [reflexivity|]. split; [lia|]. split; [apply py_strip_idem|].
  rewrite py_strip_idem.
  assert (Hb1 : (10 <=? String.length (py_strip v))%nat = true)
    by (apply Nat.leb_le; exact E2).
  assert (Hb2 : (String.length (py_strip v) <=? 500)%nat = true)
    by (apply Nat.leb_le; lia).
  rewrite Hb1, Hb2. simpl.
  replace (String.length (py_strip v) <? 10)%nat with false
    by (symmetry; apply Nat.ltb_ge; exact E2).
  reflexivity.
Qed.

(** The validated interest tags have no duplicates and at most 20 elements;
    each is non-empty, stripped and lowercase; a tag is kept exactly when it
    is the stripped, lowercased form of an input tag that is not blank. *)
Theorem interest_tags_normalised v ts :
  interest_tags_field v = Ok ts ->
  NoDup ts /\ (List.length ts <= 20)%nat /\
  Forall (fun t => t <> EmptyString /\ py_strip t = t /\ py_lower t = t) ts /\
  (forall t, In t ts <-> exists tag, In tag v /\
       py_strip tag <> EmptyString /\ t = py_lower (py_strip tag)).
Proof.
  unfold interest_tags_field.
  destruct ((1 <=? List.length v) && (List.length v <=? 20))%nat eqn:E;
    intro H; [|discriminate].
  inversion H; subst ts. clear H.
  apply andb_true_iff in E as [_ E]. apply Nat.leb_le in E.
  unfold validate_tags.
  assert (Hin : forall t,
    In t (nodup string_dec (map (fun tag => py_lower (py_strip tag))
            (filter (fun tag => py_str_truthy (py_strip tag)) v))) <->
    exists tag, In tag v /\ py_strip tag <> EmptyString /\
                t = py_lower (py_strip tag)).
  { intro t. rewrite nodup_In, in_map_iff. split.
    - intros [tag [Ht Hf]]. apply filter_In in Hf as [Hv Htr].
      exists tag. split; [exact Hv|]. split; [|symmetry; exact Ht].
      intro He. rewrite He in Htr. discriminate.
    - intros [tag [Hv [Hne Ht]]]. exists tag. split; [symmetry; exact Ht|].
      apply filter_In. split; [exact Hv|].
      destruct (py_strip tag) eqn:Es; [exfalso; apply Hne; first [reflexivity|exact Es]|reflexivity]. }
  split; [apply NoDup_nodup|]. split; [|split; [|exact Hin]].
  - eapply Nat.le_trans; [apply nodup_length_le|]. rewrite length_map.
    eapply Nat.le_trans; [apply filter_length_le|exact E].
  - apply Forall_forall. intros t Ht.
    apply Hin in Ht as [tag [_ [Hne ->]]]. apply normalised_tag.
    destruct (py_strip tag) eqn:Es; [exfalso; apply Hne; first [reflexivity|exact Es]|reflexivity].
Qed.

(** A list of 1 to 20 tags that are all blank passes the [min_items=1]
    check, and [validate_tags] then turns it into the empty list. *)
Theorem blank_tags_validate_to_empty v :
  (1 <= List.length v <= 20)%nat ->
  Forall (fun tag => py_strip tag = EmptyString) v ->
  interest_tags_field v = Ok [].
Proof.
  intros [H1 H2] Hb. unfold interest_tags_field.
  apply Nat.leb_le in H1. apply Nat.leb_le in H2. rewrite H1, H2. simpl.
  clear H1 H2. unfold validate_tags.
  replace (filter (fun tag => py_str_truthy (py_strip tag)) v) with (@nil string);
    [reflexivity|].
  induction Hb as [|tag v Ht Hb IH]; simpl; [reflexivity|].
  rewrite Ht. simpl. exact IH.
Qed.

(** [check_toxicity] overrides the [approved] value given to an
    [AIIntroduction]: a constructed introduction is approved exactly when its
    toxicity score is at most 0.75, and any other [approved] input builds
    the same introduction. *)
Theorem toxicity_decides_approval cid text member tox a i :
  AIIntroduction_new cid text member tox a = Ok i ->
  (approved i = true <-> tox <= 75 # 100) /\
  (forall a', AIIntroduction_new cid text member tox a' = Ok i).
Proof.
  unfold AIIntroduction_new. cbv zeta.
  destruct (String.length text <=? 300)%nat; simpl; [|discriminate].
  destruct (Qleb 0 tox && Qleb tox 1); simpl; intro H; [|discriminate].
  inversion H; subst i. simpl. split; [|reflexivity].
  destruct (Qltb (75 # 100) tox) eqn:Et.
  - apply Qltb_iff in Et. split; [discriminate|].
    intro Hle. exfalso. exact (Qlt_not_le _ _ Et Hle).
  - apply Qltb_false in Et. split; [intros _; exact Et|intros _; reflexivity].
Qed.

(** ** Witnesses of the further properties *)

Lemma decision_engine_ignores_diversity_filter_witness :
  match_score (scored_match "c1" "Programming" (90 # 100)) = Some (90 # 100) /\
  (87 # 100 < 90 # 100 \/ 90 # 100 < 55 # 100) /\
  apply_decision_engine env_no_candidates "task-x3" "user-x3"
    (apply_diversity_filter
       [scored_match "c1" "Programming" (90 # 100);
        scored_match "c2" "Programming" (1 # 2);
        scored_match "c3" "Programming" (2 # 5);
        scored_match "c4" "Hiking" (1 # 3)]) =
  apply_decision_engine env_no_candidates "task-x3" "user-x3"
    [scored_match "c1" "Programming" (90 # 100);
     scored_match "c2" "Programming" (1 # 2);
     scored_match "c3" "Programming" (2 # 5);
     scored_match "c4" "Hiking" (1 # 3)].
Proof.
  assert (H1 : match_score (scored_match "c1" "Programming" (90 # 100)) =
               Some (90 # 100)) by reflexivity.
  assert (H2 : 87 # 100 < 90 # 100 \/ 90 # 100 < 55 # 100)
    by (left; reflexivity).
  split; [exact H1|]. split; [exact H2|].
  exact (decision_engine_ignores_diversity_filter env_no_candidates
           "task-x3" "user-x3" (scored_match "c1" "Programming" (90 # 100))
           _ (90 # 100) H1 H2).
Defined.

Lemma hybrid_matches_scored_and_local_witness :
  exists ms,
  filter_communities_by_location (env_scored (70 # 100)) 1000 =
    Ok (store_record "c1" "Programming" :: skipn 1 local_records) /\
  hybrid_matching_algorithm (env_scored (70 # 100)) = Ok ms /\
  (List.length ms <= 20)%nat /\
  exists vms, vector_search (env_scored (70 # 100))
      (map community_id (store_record "c1" "Programming" :: skipn 1 local_records))
      20 = Ok vms /\
    Forall (fun m => exists s, match_score m = Some s /\
              In (community_id m, s) vms /\
              In (community_id m)
                 (map community_id
                    (store_record "c1" "Programming" :: skipn 1 local_records)) /\
              recent_activity m <> None) ms.
Proof.
  assert (Hf : filter_communities_by_location (env_scored (70 # 100)) 1000 =
               Ok (store_record "c1" "Programming" :: skipn 1 local_records))
    by (vm_compute; reflexivity).
  destruct (hybrid_matching_algorithm (env_scored (70 # 100))) as [ms|e] eqn:E.
  2:{ vm_compute in E. discriminate E. }
  pose proof E as E0. vm_compute in E. injection E as <-.
  eexists. split; [exact Hf|]. split; [exact E0|].
  exact (hybrid_matches_scored_and_local _ _ _ _ Hf E0).
Defined.

Lemma returned_result_fields_witness :
  exists ds r w',
  celery_run (fun _ => env_scored (90 # 100)) "task-x5" "user-x5" w_init =
    (ds, Some (TaskReturn r), w') /\
  task_id r = "task-x5"%string /\ user_id r = "user-x5"%string /\
  ai_intro_generated r = false /\
  processing_time_ms r = elapsed_ms (env_scored (90 # 100)) /\
  (auto_joined_community r <> None <-> tier r = SOULMATE) /\
  (forall cid, auto_joined_community r = Some cid ->
     exists cm, matches r = [cm] /\ cm_community_id cm = cid).
Proof.
  destruct (celery_run (fun _ => env_scored (90 # 100)) "task-x5" "user-x5"
              w_init) as [[ds fin] w'] eqn:E.
  pose proof E as E0. vm_compute in E. injection E as <- <- <-.
  eexists _, _, _. split; [exact E0|].
  exact (returned_result_fields _ _ _ _ _ _ _ E0).
Defined.


Lemma phases_reported_in_order_witness :
  exists o w2,
  process_match_task (env_embed_fails "ValueError: unsupported input")
    "task-x7" "user-x7" 0 w_init = (o, w2) /\
  exists n, (1 <= n <= 4)%nat /\
    progress w2 = progress w_init ++
                  map (fun p => (0%nat, p)) (firstn n task_phases) /\
    (published w2 <> published w_init -> n = 4%nat).
Proof.
  destruct (process_match_task (env_embed_fails "ValueError: unsupported input")
              "task-x7" "user-x7" 0 w_init) as [o w2] eqn:E.
  pose proof E as E0. vm_compute in E. injection E as <- <-.
  eexists _, _. split; [exact E0|].
  exact (phases_reported_in_order _ _ _ _ _ _ _ E0).
Defined.


Lemma phase_timeout_not_retried_witness :
  fst (guarded env_sanitize_times_out "task-x9" "user-x9" 0 w_init) =
    Raise EmptyString /\
  fst (process_match_task env_sanitize_times_out "task-x9" "user-x9" 0 w_init)
    <> TaskRetry 1 EmptyString.
Proof.
  assert (H : fst (guarded env_sanitize_times_out "task-x9" "user-x9" 0 w_init)
              = Raise EmptyString) by (vm_compute; reflexivity).
  split; [exact H|].
  exact (phase_timeout_not_retried _ _ _ _ _ H 1 EmptyString).
Defined.

Lemma bio_field_normalised_witness :
  bio_field "  Backend developer who likes hiking  " =
    Ok "Backend developer who likes hiking"%string /\
  "Backend developer who likes hiking"%string =
    py_strip "  Backend developer who likes hiking  " /\
  (10 <= String.length "Backend developer who likes hiking" <= 500)%nat /\
  py_strip "Backend developer who likes hiking" =
    "Backend developer who likes hiking"%string /\
  bio_field "Backend developer who likes hiking" =
    Ok "Backend developer who likes hiking"%string.
Proof.
  assert (H : bio_field "  Backend developer who likes hiking  " =
              Ok "Backend developer who likes hiking"%string)
    by (vm_compute; reflexivity).
  split; [exact H|]. exact (bio_field_normalised _ _ H).
Defined.

Lemma interest_tags_normalised_witness :
  interest_tags_field [" Python "; "python"; "   "; "HIKING"]%string =
    Ok ["python"; "hiking"]%string /\
  NoDup ["python"; "hiking"]%string /\
  (List.length ["python"; "hiking"]%string <= 20)%nat /\
  Forall (fun t => t <> EmptyString /\ py_strip t = t /\ py_lower t = t)
    ["python"; "hiking"]%string /\
  (forall t, In t ["python"; "hiking"]%string <-> exists tag,
       In tag [" Python "; "python"; "   "; "HIKING"]%string /\
       py_strip tag <> EmptyString /\ t = py_lower (py_strip tag)).
Proof.
  assert (H : interest_tags_field [" Python "; "python"; "   "; "HIKING"]%string
              = Ok ["python"; "hiking"]%string) by (vm_compute; reflexivity).
  split; [exact H|]. exact (interest_tags_normalised _ _ H).
Defined.

Lemma blank_tags_validate_to_empty_witness :
  (1 <= List.length ["   "; " "]%string <= 20)%nat /\
  Forall (fun tag => py_strip tag = EmptyString) ["   "; " "]%string /\
  interest_tags_field ["   "; " "]%string = Ok [].
Proof.
  assert (H1 : (1 <= List.length ["   "; " "]%string <= 20)%nat)
    by (simpl; lia).
  assert (H2 : Forall (fun tag => py_strip tag = EmptyString)
                 ["   "; " "]%string).
  { constructor; [vm_compute; reflexivity|].
    constructor; [vm_compute; reflexivity|]. constructor. }
  split; [exact H1|]. split; [exact H2|].
  exact (blank_tags_validate_to_empty _ H1 H2).
Defined.

Lemma toxicity_decides_approval_witness :
  AIIntroduction_new "comm_123" "Welcome to the Python group!" None (1 # 5)
    false =
    Ok (mkAIIntroduction "comm_123" "Welcome to the Python group!" None
          (1 # 5) true) /\
  (approved (mkAIIntroduction "comm_123" "Welcome to the Python group!" None
               (1 # 5) true) = true <-> 1 # 5 <= 75 # 100) /\
  (forall a', AIIntroduction_new "comm_123" "Welcome to the Python group!"
                None (1 # 5) a' =
              Ok (mkAIIntroduction "comm_123" "Welcome to the Python group!"
                    None (1 # 5) true)).
Proof.
  assert (H : AIIntroduction_new "comm_123" "Welcome to the Python group!" None
                (1 # 5) false =
              Ok (mkAIIntroduction "comm_123" "Welcome to the Python group!"
                    None (1 # 5) true)) by (vm_compute; reflexivity).
  split; [exact H|]. exact (toxicity_decides_approval _ _ _ _ _ _ H).
Defined.
